(** * devsync-automated-commits: the retrieval and function-call services

    A shallow embedding of three FastAPI services of the repository,

    - [function_caller_api.py]  (template extraction, [/execute]),
    - [rag_api.py]              (fixed knowledge base, [/search]),
    - [similarity_api.py]       (ad-hoc corpus, top 3, [/similarity]),

    followed by the properties the design document states about them.

    Conventions.  Python [str] is modelled by [string] (queries are taken
    to be ASCII text: [lower], [\d], [\w] and [\s] act on the ASCII range);
    Python [float] and numpy [float64] by the primitive binary64 [float];
    a raised exception by the [Raise] constructor of [result]; the calls
    made to the embedding backends by a trace threaded through the monad
    [M].  Library code the services call (the OpenAI client, scikit-learn's
    [cosine_similarity], [hash], the [random] generator, C's [pow]) is not
    part of the repository: it enters through the record [World].  numpy's
    [argsort] leaves the order of equal values open: [SimilarityApi.argsort]
    is one order, [Spec.numpy_argsort] is what numpy documents of all of
    them. *)

From Stdlib Require Import String Ascii List ZArith Bool Arith Lia.
From Stdlib Require Import DecimalString DecimalZ Sorting.Sorted Sorting.Permutation.
From Stdlib Require Import Floats.
Import ListNotations.

Local Open Scope string_scope.
Local Open Scope list_scope.

(* ================================================================== *)
(** * Python values, exceptions and builtins                           *)
(* ================================================================== *)

Module Py.

(** Exceptions the three services can raise or meet. *)
Inductive exn : Type :=
| HTTPException (status_code : Z) (detail : string)
| IndexError (msg : string)
| ValueError (msg : string)
| ProviderError (msg : string).

(** Outcome of a Python call: a value, or a raised exception. *)
Inductive result (A : Type) : Type :=
| Ok (a : A)
| Raise (e : exn).
Arguments Ok {A} a.
Arguments Raise {A} e.

(** [str(e)]: Starlette prints an [HTTPException] as [status: detail];
    the other exceptions print their message. *)
Definition str_exn (e : exn) : string :=
  match e with
  | HTTPException c d => (NilZero.string_of_int (Z.to_int c) ++ ": " ++ d)%string
  | IndexError m | ValueError m | ProviderError m => m
  end.

(** [c.lower()] on the ASCII range: [A]..[Z] move to [a]..[z]. *)
Definition lower_ascii (c : ascii) : ascii :=
  let n := nat_of_ascii c in
  if (65 <=? n)%nat && (n <=? 90)%nat then ascii_of_nat (n + 32) else c.

(** [s.lower()]. *)
Fixpoint lower (s : string) : string :=
  match s with
  | EmptyString => EmptyString
  | String c t => String (lower_ascii c) (lower t)
  end.

(** [s.startswith(p)], returning the rest of [s] after [p]. *)
Fixpoint strip_prefix (p s : string) : option string :=
  match p, s with
  | EmptyString, _ => Some s
  | String a p', String b s' => if Ascii.eqb a b then strip_prefix p' s' else None
  | String _ _, EmptyString => None
  end.

(** [needle in hay] on strings: substring test. *)
Fixpoint contains (needle hay : string) : bool :=
  match strip_prefix needle hay with
  | Some _ => true
  | None => match hay with
            | EmptyString => false
            | String _ t => contains needle t
            end
  end.

(** [s.replace(a, b)] for one-character [a] and [b]. *)
Fixpoint replace_char (a b : ascii) (s : string) : string :=
  match s with
  | EmptyString => EmptyString
  | String c t => String (if Ascii.eqb c a then b else c) (replace_char a b t)
  end.

(** [int(s)] on a string of decimal digits. *)
Definition digit_val (c : ascii) : Z := Z.of_nat (nat_of_ascii c) - 48.

Fixpoint int_acc (acc : Z) (s : string) : Z :=
  match s with
  | EmptyString => acc
  | String c t => int_acc (10 * acc + digit_val c) t
  end.

Definition int (s : string) : Z := int_acc 0 s.

(** [l[i]]: raises [IndexError] out of range. *)
Definition index {A : Type} (l : list A) (i : nat) : result A :=
  match nth_error l i with
  | Some a => Ok a
  | None => Raise (IndexError "list index out of range")
  end.

(** [enumerate(l)]. *)
Fixpoint enumerate_from {A : Type} (i : nat) (l : list A) : list (nat * A) :=
  match l with
  | [] => []
  | a :: t => (i, a) :: enumerate_from (S i) t
  end.

Definition enumerate {A : Type} (l : list A) : list (nat * A) := enumerate_from 0 l.

(** [l[-n:]]: the last [n] elements (all of [l] when it is shorter). *)
Definition last_n {A : Type} (n : nat) (l : list A) : list A :=
  skipn (length l - n) l.

(** ** Stable sorting

    [list.sort] and a stable [argsort] compare keys with [<] only and keep
    elements with equal keys in input order.  Elements are inserted from
    left to right, each one after every element of the sorted prefix that
    is not greater than it.  For keys that [<] orders totally this is the
    arrangement every stable sort produces. *)
Section Sort.
Context {A K : Type}.
Variable lt : K -> K -> bool.
Variable key : A -> K.

Fixpoint insort (x : A) (l : list A) : list A :=
  match l with
  | [] => [x]
  | y :: t => if lt (key x) (key y) then x :: y :: t else y :: insort x t
  end.

Definition sorted_stable (l : list A) : list A :=
  fold_left (fun acc x => insort x acc) l [].

(** [l.sort(key=key, reverse=reverse)]: CPython reverses the list, sorts
    it stably in ascending order and reverses the outcome. *)
Definition list_sort (reverse : bool) (l : list A) : list A :=
  if reverse then rev (sorted_stable (rev l)) else sorted_stable l.

End Sort.

End Py.
Import Py.

(* ================================================================== *)
(** * Regular expressions as [re.match] runs them                      *)
(* ================================================================== *)

Module Re.

(** The pattern language the five templates use: literal text, a greedy
    [+] over a character class, and capturing parentheses. *)
Inductive tok : Type :=
| Lit (s : string)
| Plus (cls : ascii -> bool)
| Open
| Close.

Definition pattern := list tok.

Definition between (lo hi : nat) (c : ascii) : bool :=
  let n := nat_of_ascii c in (lo <=? n)%nat && (n <=? hi)%nat.

(** [\d] *)
Definition digit (c : ascii) : bool := between 48 57 c.

(** [\w] *)
Definition word (c : ascii) : bool :=
  between 48 57 c || between 65 90 c || between 97 122 c || Ascii.eqb c "_".

(** [\s]: tab, newline, vertical tab, form feed, carriage return, the
    separators 28..31 and the space. *)
Definition space (c : ascii) : bool :=
  between 9 13 c || between 28 31 c || Ascii.eqb c " ".

(** [[\d-]], [[\d:]] and [[\w\s]] *)
Definition digit_or_dash (c : ascii) : bool := digit c || Ascii.eqb c "-".
Definition digit_or_colon (c : ascii) : bool := digit c || Ascii.eqb c ":".
Definition word_or_space (c : ascii) : bool := word c || space c.

(** Greedy [cls+] followed by the continuation [k]: the longest run is
    tried first and given back one character at a time. *)
Fixpoint greedy_plus {R : Type} (cls : ascii -> bool) (k : string -> option R)
  (s : string) : option R :=
  match s with
  | EmptyString => None
  | String c t =>
      if cls c then
        match greedy_plus cls k t with
        | Some r => Some r
        | None => k t
        end
      else None
  end.

(** The text a group captured: what was consumed of [from] when [now] is
    what remains. *)
Definition consumed (from now : string) : string :=
  substring 0 (String.length from - String.length now) from.

(** Backtracking run of a pattern at the start of [s]; [opens] holds the
    input as it stood at each open parenthesis, [caps] the groups closed so
    far (latest first). *)
Fixpoint exec (p : pattern) (s : string) (opens caps : list string)
  : option (list string) :=
  match p with
  | [] => Some (rev caps)
  | Lit w :: p' =>
      match strip_prefix w s with
      | Some s' => exec p' s' opens caps
      | None => None
      end
  | Plus cls :: p' => greedy_plus cls (fun s' => exec p' s' opens caps) s
  | Open :: p' => exec p' s (s :: opens) caps
  | Close :: p' =>
      match opens with
      | o :: os => exec p' s os (consumed o s :: caps)
      | [] => None
      end
  end.

(** [re.match(p, s)]: anchored at the start of [s], not at its end; the
    outcome is the list of groups. *)
Definition re_match (p : pattern) (s : string) : option (list string) :=
  exec p s [] [].

(** [m.group(i)] for [i >= 1]. *)
Definition group (m : list string) (i : nat) : string := nth (i - 1) m "".

End Re.

(* ================================================================== *)
(** * [json.dumps] on the dictionaries the resolver builds             *)
(* ================================================================== *)

Module Json.

(** Values of the argument dictionaries: integers and strings. *)
Inductive value : Type :=
| JInt (n : Z)
| JStr (s : string).

(** The double quote character. *)
Definition dquote : ascii := ascii_of_nat 34.
Definition backslash : ascii := ascii_of_nat 92.

Definition hex_digit (n : nat) : ascii :=
  ascii_of_nat (if (n <? 10)%nat then 48 + n else 87 + n).

(** One character inside a JSON string ([ensure_ascii] is on): the quote
    and the backslash are escaped, the five short escapes are used, and
    whatever else lies outside [' '..'~'] is written as [\u00XX]. *)
Definition escape_char (c : ascii) : string :=
  let n := nat_of_ascii c in
  if (n =? 34)%nat then String backslash (String dquote EmptyString)
  else if (n =? 92)%nat then String backslash (String backslash EmptyString)
  else if (n =? 10)%nat then String backslash "n"
  else if (n =? 13)%nat then String backslash "r"
  else if (n =? 9)%nat then String backslash "t"
  else if (n =? 12)%nat then String backslash "f"
  else if (n =? 8)%nat then String backslash "b"
  else if (32 <=? n)%nat && (n <=? 126)%nat then String c EmptyString
  else String backslash
         (String "u" (String "0" (String "0"
            (String (hex_digit (n / 16)) (String (hex_digit (n mod 16)) EmptyString))))).

Fixpoint escape (s : string) : string :=
  match s with
  | EmptyString => EmptyString
  | String c t => (escape_char c ++ escape t)%string
  end.

Definition quoted (s : string) : string :=
  String dquote (escape s ++ String dquote EmptyString)%string.

Definition dumps_value (v : value) : string :=
  match v with
  | JInt n => NilZero.string_of_int (Z.to_int n)
  | JStr s => quoted s
  end.

Definition dumps_item (kv : string * value) : string :=
  (quoted (fst kv) ++ ": " ++ dumps_value (snd kv))%string.

(** [json.dumps(d)] for a dictionary [d], items in insertion order. *)
Definition dumps (d : list (string * value)) : string :=
  ("{" ++ String.concat ", " (map dumps_item d) ++ "}")%string.

End Json.

(* ================================================================== *)
(** * function_caller_api.py                                           *)
(* ================================================================== *)

Module FunctionCaller.
Import Re Json.

Record FunctionCallResponse : Type := {
  name : string;
  arguments : string
}.

(** [r"What is the status of ticket (\d+)\?"] *)
Definition TICKET_RE : pattern :=
  [Lit "What is the status of ticket "; Open; Plus digit; Close; Lit "?"].

(** [r"Schedule a meeting on ([\d-]+) at ([\d:]+) in (Room \w+)\."] *)
Definition MEETING_RE : pattern :=
  [Lit "Schedule a meeting on "; Open; Plus digit_or_dash; Close;
   Lit " at "; Open; Plus digit_or_colon; Close;
   Lit " in "; Open; Lit "Room "; Plus word; Close; Lit "."].

(** [r"Show my expense balance for employee (\d+)\."] *)
Definition EXPENSE_RE : pattern :=
  [Lit "Show my expense balance for employee "; Open; Plus digit; Close; Lit "."].

(** [r"Calculate performance bonus for employee (\d+) for (\d+)\."] *)
Definition BONUS_RE : pattern :=
  [Lit "Calculate performance bonus for employee "; Open; Plus digit; Close;
   Lit " for "; Open; Plus digit; Close; Lit "."].

(** [r"Report office issue (\d+) for the ([\w\s]+) department\."] *)
Definition ISSUE_RE : pattern :=
  [Lit "Report office issue "; Open; Plus digit; Close;
   Lit " for the "; Open; Plus word_or_space; Close; Lit " department."].

(** The fixed extraction templates, in the order they are tried. *)
Definition TEMPLATES : list pattern :=
  [TICKET_RE; MEETING_RE; EXPENSE_RE; BONUS_RE; ISSUE_RE].

Definition NO_PATTERN : exn :=
  HTTPException 400 "Query did not match any known function pattern.".

(** [GET /execute?q=...] *)
Definition execute_function_call (q : string) : result FunctionCallResponse :=
  match re_match TICKET_RE q with
  | Some ticket_match =>
      let ticket_id := int (group ticket_match 1) in
      Ok {| name := "get_ticket_status";
            arguments := dumps [("ticket_id", JInt ticket_id)] |}
  | None =>
  match re_match MEETING_RE q with
  | Some meeting_match =>
      let date := group meeting_match 1 in
      let time := group meeting_match 2 in
      let room := group meeting_match 3 in
      Ok {| name := "schedule_meeting";
            arguments := dumps [("date", JStr date); ("time", JStr time);
                                ("meeting_room", JStr room)] |}
  | None =>
  match re_match EXPENSE_RE q with
  | Some expense_match =>
      let employee_id := int (group expense_match 1) in
      Ok {| name := "get_expense_balance";
            arguments := dumps [("employee_id", JInt employee_id)] |}
  | None =>
  match re_match BONUS_RE q with
  | Some bonus_match =>
      let employee_id := int (group bonus_match 1) in
      let current_year := int (group bonus_match 2) in
      Ok {| name := "calculate_performance_bonus";
            arguments := dumps [("employee_id", JInt employee_id);
                                ("current_year", JInt current_year)] |}
  | None =>
  match re_match ISSUE_RE q with
  | Some issue_match =>
      let issue_code := int (group issue_match 1) in
      let department := group issue_match 2 in
      Ok {| name := "report_office_issue";
            arguments := dumps [("issue_code", JInt issue_code);
                                ("department", JStr department)] |}
  | None => Raise NO_PATTERN
  end end end end end.

(** A query conforms to a template when [re.match] accepts it: the
    template is found at the start of the query (what follows it is not
    looked at). *)
Definition conforms (q : string) : Prop :=
  exists p, In p TEMPLATES /\ re_match p q <> None.

End FunctionCaller.

(* ================================================================== *)
(** * The outside world and the effects of a request                   *)
(* ================================================================== *)

Module Effects.

(** What the services obtain from their environment and from libraries
    that are not part of the repository. *)
Record World : Type := {
  (** [os.getenv("OPENAI_API_KEY")] *)
  getenv_api_key : option string;
  (** [hash(str(texts))] *)
  hash_str : list string -> Z;
  (** the value of the [n]-th call of [random.random()] after
      [random.seed(seed)] *)
  mt_random : Z -> nat -> float;
  (** [x ** y] on floats *)
  float_pow : float -> float -> float;
  (** the remote embedding service: one vector per text of the batch, or
      a transport or status failure *)
  remote_embed : string -> list string -> result (list (list float));
  (** [sklearn.metrics.pairwise.cosine_similarity(X, Y)] *)
  sk_cosine_similarity :
    list (list float) -> list (list float) -> result (list (list float))
}.

(** The two embedding backends. *)
Inductive backend : Type := Mock | Remote.

(** One invocation of an embedding backend, with the batch it received. *)
Record call : Type := { via : backend; batch : list string }.

(** A request handler: it may raise, and it extends the trace of backend
    invocations (oldest first). *)
Definition M (A : Type) : Type := list call -> result A * list call.

Definition ret {A : Type} (a : A) : M A := fun t => (Ok a, t).

Definition raise {A : Type} (e : exn) : M A := fun t => (Raise e, t).

Definition bind {A B : Type} (c : M A) (k : A -> M B) : M B :=
  fun t => match c t with
           | (Ok a, t') => k a t'
           | (Raise e, t') => (Raise e, t')
           end.

Definition lift {A : Type} (r : result A) : M A := fun t => (r, t).

Definition invoke (b : backend) (texts : list string) : M unit :=
  fun t => (Ok tt, t ++ [{| via := b; batch := texts |}]).

(** [try: c except Exception as e: h(e)] *)
Definition try_except {A : Type} (c : M A) (h : exn -> M A) : M A :=
  fun t => match c t with
           | (Ok a, t') => (Ok a, t')
           | (Raise e, t') => h e t'
           end.

(** [[f(x) for x in l]] with an effectful [f]. *)
Fixpoint for_each {A B : Type} (f : A -> M B) (l : list A) : M (list B) :=
  match l with
  | [] => ret []
  | x :: rest =>
      bind (f x) (fun y => bind (for_each f rest) (fun ys => ret (y :: ys)))
  end.

(** A handler run on a fresh request. *)
Definition run {A : Type} (c : M A) : result A * list call := c [].

End Effects.
Import Effects.

Notation "x <- c ;; k" := (bind c (fun x => k))
  (at level 61, c at next level, right associativity).
Notation "c ;;; k" := (bind c (fun _ => k))
  (at level 61, right associativity).

(* ================================================================== *)
(** * rag_api.py                                                       *)
(* ================================================================== *)

Module RagApi.

Local Open Scope float_scope.

Record Document : Type := { content : string; source : string }.

Record SearchResponse : Type := { answer : string; sources : option string }.

Definition KNOWLEDGE_BASE : list Document := [
  {| content := "The fat arrow syntax is affectionately called the fat arrow (because -> is a thin arrow and => is a fat arrow). The fat arrow is also called a lambda function.";
     source := "TypeScript Book - Arrow Functions" |};
  {| content := "The !! operator converts any value into an explicit boolean. The first ! converts to boolean and inverts the logic, the second ! inverts it back.";
     source := "TypeScript Book - Operators" |};
  {| content := "TypeScript has type inference which means you don't always need to annotate types. The compiler can infer types from usage.";
     source := "TypeScript Book - Type Inference" |};
  {| content := "Interfaces in TypeScript are used to define the structure of objects. They are a powerful way of defining contracts within your code.";
     source := "TypeScript Book - Interfaces" |};
  {| content := "The any type is the super type of all types in TypeScript. Using any effectively opts out of type checking.";
     source := "TypeScript Book - Types" |}
]%list.

(** Length of a mock vector. *)
Definition DIM : nat := 1536.

(** [random.uniform(-1, 1)], that is [a + (b - a) * random()], at the
    [n]-th draw of the generator. *)
Definition uniform (w : World) (seed : Z) (n : nat) : float :=
  -1 + 2 * mt_random w seed n.

(** [[random.uniform(-1, 1) for _ in range(1536)]] when [drawn] values
    were drawn before. *)
Definition draw_embedding (w : World) (seed : Z) (drawn : nat) : list float :=
  map (fun j => uniform w seed (drawn + j)) (seq 0 DIM).

(** [sum(x**2 for x in embedding) ** 0.5], summed from the left. *)
Definition mock_norm (w : World) (embedding : list float) : float :=
  float_pow w (fold_left (fun acc x => acc + float_pow w x 2) embedding 0) 0.5.

(** [norm = ...; embedding = [x / norm for x in embedding]] *)
Definition normalized (w : World) (embedding : list float) : list float :=
  let norm := mock_norm w embedding in
  map (fun x => x / norm) embedding.

(** The loop [for _ in texts] of the mock branch: the texts themselves
    are not read, each turn draws the next [DIM] values. *)
Fixpoint mock_loop (w : World) (seed : Z) (drawn : nat) (texts : list string)
  : list (list float) :=
  match texts with
  | [] => []
  | _ :: rest =>
      normalized w (draw_embedding w seed drawn)
        :: mock_loop w seed (drawn + DIM) rest
  end%list.

(** The mock branch: the generator is seeded once, from the whole batch. *)
Definition mock_embeddings (w : World) (texts : list string) : list (list float) :=
  let seed := (hash_str w texts mod 2 ^ 32)%Z in
  mock_loop w seed 0 texts.

(** [not api_key or api_key == "dummy-api-key"] *)
Definition use_mock (api_key : string) : bool :=
  String.eqb api_key "" || String.eqb api_key "dummy-api-key".

Definition get_embeddings (w : World) (texts : list string) (api_key : string)
  : M (list (list float)) :=
  if use_mock api_key then
    invoke Mock texts ;;; ret (mock_embeddings w texts)
  else
    invoke Remote texts ;;; lift (remote_embed w api_key texts).

(** [np.dot(v1, v2)] on one-dimensional arrays, accumulated from the
    left; arrays of different lengths are refused.  (numpy may add the
    products in another order, which can change the last bits of the sum:
    nothing is claimed of those bits.) *)
Fixpoint dot_from (acc : float) (v1 v2 : list float) : float :=
  match v1, v2 with
  | a :: t1, b :: t2 => dot_from (acc + a * b) t1 t2
  | _, _ => acc
  end%list.

Definition np_dot (v1 v2 : list float) : result float :=
  if (length v1 =? length v2)%nat then Ok (dot_from 0 v1 v2)
  else Raise (ValueError "shapes not aligned").

(** [np.linalg.norm(v)] *)
Definition np_norm (v : list float) : float := sqrt (dot_from 0 v v).

Definition cosine_similarity (vec1 vec2 : list float) : result float :=
  match np_dot vec1 vec2 with
  | Ok d => Ok (d / (np_norm vec1 * np_norm vec2))
  | Raise e => Raise e
  end.

(** The branch conditions of [search], in the order they are tested. *)
Definition mentions_arrow (q : string) : bool :=
  contains "=>" q || contains "fat arrow" (lower q).

Definition rule_arrow_name (q : string) : bool :=
  mentions_arrow q &&
  (contains "call" (lower q) || contains "affectionately" (lower q)
   || contains "syntax" (lower q)).

Definition rule_double_bang (q : string) : bool :=
  contains "!!" q ||
  (contains "boolean" (lower q) &&
   (contains "convert" (lower q) || contains "explicit" (lower q))).

Definition rule_arrow_any (q : string) : bool := mentions_arrow q.

(** [KNOWLEDGE_BASE[i]] for the constant indices of the rule branches. *)
Definition kb (i : nat) : Document :=
  nth i KNOWLEDGE_BASE {| content := ""; source := "" |}.

(** The loop that scores every document vector against the query vector. *)
Fixpoint score_loop (query_embedding : list float)
  (items : list (nat * list float)) (similarities : list (nat * float * Document))
  : result (list (nat * float * Document)) :=
  match items with
  | [] => Ok similarities
  | (i, doc_embedding) :: rest =>
      match cosine_similarity query_embedding doc_embedding with
      | Raise e => Raise e
      | Ok similarity =>
          match index KNOWLEDGE_BASE i with
          | Raise e => Raise e
          | Ok doc =>
              score_loop query_embedding rest
                (similarities ++ [(i, similarity, doc)])
          end
      end
  end%list.

(** The sort key [lambda x: x[1]]. *)
Definition score_of (x : nat * float * Document) : float := snd (fst x).

(** [similarities.sort(key=lambda x: x[1], reverse=True)] *)
Definition rank (similarities : list (nat * float * Document))
  : list (nat * float * Document) :=
  list_sort ltb score_of true similarities.

(** What the [else] branch of [search] does once the embeddings have
    arrived: split them, score every document, sort, take the first. *)
Definition best_document (embeddings : list (list float)) : result Document :=
  match index embeddings 0 with
  | Raise e => Raise e
  | Ok query_embedding =>
      let doc_embeddings := tl embeddings in
      match score_loop query_embedding (enumerate doc_embeddings) [] with
      | Raise e => Raise e
      | Ok similarities =>
          match index (rank similarities) 0 with
          | Raise e => Raise e
          | Ok best => Ok (snd best)
          end
      end
  end%list.

(** The [else] branch of [search]: embedding-based search. *)
Definition embedding_search (w : World) (q : string) (api_key : string) : M Document :=
  let all_texts := (q :: map content KNOWLEDGE_BASE)%list in
  embeddings <- get_embeddings w all_texts api_key ;;
  lift (best_document embeddings).

(** [os.getenv("OPENAI_API_KEY", default)] *)
Definition getenv (w : World) (default : string) : string :=
  match getenv_api_key w with Some k => k | None => default end.

(** [GET /search?q=...] *)
Definition search (w : World) (q : string) : M SearchResponse :=
  let api_key := getenv w "dummy-api-key" in
  best_match <-
    (if rule_arrow_name q then ret (kb 0)
     else if rule_double_bang q then ret (kb 1)
     else if rule_arrow_any q then ret (kb 0)
     else embedding_search w q api_key) ;;
  ret {| answer := content best_match; sources := Some (source best_match) |}.

(** The same branches as a rule table: predicate and index of the bound
    document, in priority order. *)
Definition RULES : list ((string -> bool) * nat) :=
  [(rule_arrow_name, 0%nat); (rule_double_bang, 1%nat); (rule_arrow_any, 0%nat)]%list.

(** The first rule whose predicate the query satisfies. *)
Definition first_match (q : string) : option ((string -> bool) * nat) :=
  find (fun r => fst r q) RULES.

End RagApi.

(* ================================================================== *)
(** * similarity_api.py                                                *)
(* ================================================================== *)

Module SimilarityApi.

Record SimilarityRequest : Type := { docs : list string; query : string }.

Record SimilarityResponse : Type := { matches : list string }.

Definition KEY_MISSING : exn :=
  HTTPException 401
    "OpenAI API key is missing or invalid. Please set the OPENAI_API_KEY environment variable.".

Definition EMPTY_INPUT : exn :=
  HTTPException 400 "Docs and query cannot be empty.".

Definition newline : ascii := ascii_of_nat 10.

(** [get_embedding(text)]: one remote call for the one text. *)
Definition get_embedding (w : World) (text : string) : M (list float) :=
  match getenv_api_key w with
  | None => raise KEY_MISSING
  | Some api_key =>
      if String.eqb api_key "" then raise KEY_MISSING
      else
        let text := replace_char newline " " text in
        invoke Remote [text] ;;;
        data <- lift (remote_embed w api_key [text]) ;;
        lift (index data 0)
  end.

(** [np.argsort(a)]: the indices of [a] in ascending order of value.
    The handler asks for no sorting kind, and numpy's default kind is not
    stable: which of two equal values comes first is left to the library
    (and differs between its builds), and NaN is sorted to the end.  The
    function below is one such order, the one an insertion sort gives on
    values that are numbers; [Spec.numpy_argsort] states what numpy
    documents of every result, and what is claimed of the ranking is
    stated so that it holds for each of them. *)
Definition argsort (a : list float) : list nat :=
  map fst (sorted_stable ltb snd (enumerate a)).

(** [idx[-3:][::-1]]: the last three sorted indices, last one first. *)
Definition take_top_3 (sorted : list nat) : list nat :=
  rev (last_n 3 sorted).

(** [np.argsort(similarities)[-3:][::-1]] *)
Definition top_3_indices (similarities : list float) : list nat :=
  take_top_3 (argsort similarities).

(** The body of the [try] block. *)
Definition rank_documents (w : World) (request : SimilarityRequest)
  : M SimilarityResponse :=
  doc_embeddings <- for_each (get_embedding w) (docs request) ;;
  query_embedding <- get_embedding w (query request) ;;
  K <- lift (sk_cosine_similarity w [query_embedding] doc_embeddings) ;;
  similarities <- lift (index K 0) ;;
  let top_3 := top_3_indices similarities in
  top_matches <- for_each (fun i => lift (index (docs request) i)) top_3 ;;
  ret {| matches := top_matches |}.

(** The [except Exception as e] handler. *)
Definition on_exception (e : exn) : M SimilarityResponse :=
  if contains "OPENAI_API_KEY" (str_exn e) then raise KEY_MISSING
  else raise (HTTPException 500 (str_exn e)).

Definition is_empty_list {A : Type} (l : list A) : bool :=
  match l with [] => true | _ => false end.

Definition is_empty_str (s : string) : bool :=
  match s with EmptyString => true | _ => false end.

(** [POST /similarity] *)
Definition get_similarity (w : World) (request : SimilarityRequest)
  : M SimilarityResponse :=
  if is_empty_list (docs request) || is_empty_str (query request)
  then raise EMPTY_INPUT
  else try_except (rank_documents w request) on_exception.

End SimilarityApi.

(* ================================================================== *)
(** * Two concrete worlds                                              *)
(* ================================================================== *)

(** Stand-ins for the libraries, used to run the services on concrete
    requests: a checksum for [hash], a linear congruential generator for
    [random], square and square root for [**], a remote service that
    embeds a text by its length, and cosine similarity as the quotient of
    the dot product by the norms. *)
Module Demo.

Local Open Scope float_scope.

Fixpoint checksum (s : string) : Z :=
  match s with
  | EmptyString => 7
  | String c t => (Z.of_nat (nat_of_ascii c) + 31 * checksum t)%Z
  end.

Definition demo_hash (texts : list string) : Z :=
  fold_left (fun h t => (131 * h + checksum t)%Z) texts 1%Z.

Definition float_of_Z (z : Z) : float := of_uint63 (Uint63.of_Z z).

Definition demo_random (seed : Z) (n : nat) : float :=
  let x := (((seed + 1 + Z.of_nat n) * 1103515245 + 12345) mod 2147483648)%Z in
  float_of_Z x / float_of_Z 2147483648%Z.

Definition demo_pow (x y : float) : float :=
  if y =? 2 then x * x else if y =? 0.5 then sqrt x else 1.

Definition demo_remote (api_key : string) (texts : list string)
  : result (list (list float)) :=
  Ok (map (fun t => [float_of_Z (Z.of_nat (String.length t)); 1]%list) texts).

Definition demo_cosine_row (x : list float) (Y : list (list float)) : list float :=
  map (fun y => RagApi.dot_from 0 x y / (RagApi.np_norm x * RagApi.np_norm y)) Y.

Definition demo_sk_cosine (X Y : list (list float)) : result (list (list float)) :=
  Ok (map (fun x => demo_cosine_row x Y) X).

(** No credential configured: the mock backend is in use. *)
Definition offline : World := {|
  getenv_api_key := None;
  hash_str := demo_hash;
  mt_random := demo_random;
  float_pow := demo_pow;
  remote_embed := demo_remote;
  sk_cosine_similarity := demo_sk_cosine
|}.

(** A credential is configured: embeddings come from the remote service. *)
Definition online : World := {|
  getenv_api_key := Some "sk-demo";
  hash_str := demo_hash;
  mt_random := demo_random;
  float_pow := demo_pow;
  remote_embed := demo_remote;
  sk_cosine_similarity := demo_sk_cosine
|}.

(** Two documents that the remote stand-in embeds alike. *)
Definition two_alike : SimilarityApi.SimilarityRequest :=
  {| SimilarityApi.docs := ["ab"; "cd"]%list; SimilarityApi.query := "xy" |}.

(** Five documents, three of them as long as the query. *)
Definition five_docs : SimilarityApi.SimilarityRequest :=
  {| SimilarityApi.docs := ["ab"; "cd"; "e"; "fgh"; "ij"]%list;
     SimilarityApi.query := "xy" |}.

End Demo.

(* ================================================================== *)
(** * Vocabulary of the statements                                     *)
(* ================================================================== *)

Module Spec.

(** [a] stands before [b] in [l]. *)
Definition precedes {A : Type} (a b : A) (l : list A) : Prop :=
  exists l1 l2 l3, l = l1 ++ a :: l2 ++ b :: l3.

(** No element of [l] is followed by one whose key is strictly smaller:
    [l] is in ascending order of key. *)
Definition ascending {A K : Type} (lt : K -> K -> bool) (key : A -> K)
  (l : list A) : Prop :=
  StronglySorted (fun a b => lt (key b) (key a) = false) l.

(** No element of [l] is followed by one whose key is strictly greater:
    [l] is in non-increasing order of key. *)
Definition non_increasing {A K : Type} (lt : K -> K -> bool) (key : A -> K)
  (l : list A) : Prop :=
  StronglySorted (fun a b => lt (key a) (key b) = false) l.

(** The keys of [a] and [b] compare alike with every key: for a sort that
    compares with [lt] they are equal. *)
Definition tie {A K : Type} (lt : K -> K -> bool) (key : A -> K) (a b : A) : Prop :=
  forall k, lt (key b) k = lt (key a) k.

(** A zero of either sign. *)
Definition is_zero (x : float) : Prop := exists s, Prim2SF x = S754_zero s.

(** A zero of either sign, or NaN. *)
Definition zero_or_nan (x : float) : Prop := is_zero x \/ Prim2SF x = S754_nan.

(** A zero vector: every component compares equal to [0.0] (which
    [-0.0] does as well). *)
Definition zero_vector (v : list float) : Prop :=
  Forall (fun x => (x =? 0)%float = true) v.

(** The vector the mock backend builds from the [i]-th block of [DIM]
    draws of the generator seeded with [seed]: the draws, each divided by
    the norm of the block. *)
Definition nth_block (w : World) (seed : Z) (i : nat) : list float :=
  RagApi.normalized w (RagApi.draw_embedding w seed (i * RagApi.DIM)).

(** The mock vector of a text is a function of the text alone: wherever
    the text stands, in whatever batch, it gets the same vector. *)
Definition per_text_vectors (w : World) : Prop :=
  forall (texts1 texts2 : list string) (i j : nat) (t : string),
    nth_error texts1 i = Some t -> nth_error texts2 j = Some t ->
    nth_error (RagApi.mock_embeddings w texts1) i =
    nth_error (RagApi.mock_embeddings w texts2) j.

(** The text [get_embedding] sends for [t], and the vector it returns
    for it when the remote service answers. *)
Definition sent_text (t : string) : string :=
  replace_char SimilarityApi.newline " " t.

Definition embedding_of (w : World) (key : string) (t : string) : list float :=
  match remote_embed w key [sent_text t] with
  | Ok (v :: _) => v
  | _ => []
  end.

(** The remote service answers the single-text request of every text of
    [texts] with at least one vector. *)
Definition provider_answers (w : World) (key : string) (texts : list string) : Prop :=
  forall t, In t texts ->
    exists v more, remote_embed w key [sent_text t] = Ok (v :: more).

(** The trace of a request that embedded [texts] one by one. *)
Definition one_call_per_text (texts : list string) : list call :=
  map (fun t => {| via := Remote; batch := [sent_text t] |}) texts.

(** The tie-break the design document asks of a ranking step: of two
    ranked indices holding equal scores, the smaller index comes first. *)
Definition ties_ascending (ranking : list float -> list nat) : Prop :=
  forall (row : list float) (i j : nat) (x y : float),
    i < j -> nth_error row i = Some x -> nth_error row j = Some y ->
    (x =? y)%float = true ->
    In i (ranking row) -> In j (ranking row) ->
    precedes i j (ranking row).

(** The order [np.argsort] sorts by: [x] may stand before [y] when it is
    at most [y], or when [y] is NaN (NaN goes to the end). *)
Definition np_le (x y : float) : bool := ((x <=? y) || negb (y =? y))%float.

(** What numpy documents of a result [idx] of [np.argsort(a)]: it holds
    every index of [a] exactly once, in ascending order of value.  The
    order of indices holding equal values is not part of it. *)
Definition numpy_argsort (a : list float) (idx : list nat) : Prop :=
  NoDup idx /\ length idx = length a /\
  Forall (fun i => i < length a) idx /\
  StronglySorted (fun i j => np_le (nth i a nan) (nth j a nan) = true) idx.

(** The trace of a request that invoked an embedding backend exactly
    once, with the batch [query :: contents]. *)
Definition single_batch_call (q : string) (contents : list string)
  (trace : list call) : Prop :=
  exists b, trace = [{| via := b; batch := q :: contents |}].

End Spec.
Import Spec.

(* ================================================================== *)
(** * Further vocabulary                                               *)
(* ================================================================== *)

Module Words.

(** Every character of [s] belongs to the class [cls]. *)
Fixpoint all_in (cls : ascii -> bool) (s : string) : bool :=
  match s with
  | EmptyString => true
  | String c t => cls c && all_in cls t
  end.

(** The characters [' '] to ['~']. *)
Definition printable (c : ascii) : bool :=
  let n := nat_of_ascii c in (32 <=? n)%nat && (n <=? 126)%nat.

(** The characters of the ASCII range, where [\d], [\w] and [\s] mean
    [Re.digit], [Re.word] and [Re.space]. *)
Definition seven_bit (c : ascii) : bool := (nat_of_ascii c <? 128)%nat.

(** The longest numeral CPython's [int] and [str] convert by default. *)
Definition MAX_STR_DIGITS : nat := 4300.

(** The decimal numeral of an integer, as [json.dumps] and [str] print it. *)
Definition decimal (n : Z) : string := NilZero.string_of_int (Z.to_int n).

(** A character that [lower] leaves alone and that is not the lower-case
    form of another one: anything but a letter. *)
Definition caseless (c : ascii) : bool :=
  let n := nat_of_ascii c in
  negb ((65 <=? n)%nat && (n <=? 90)%nat) && negb ((97 <=? n)%nat && (n <=? 122)%nat).

(** The queries the five templates describe, spelled out: fixed words
    around slots filled with non-empty runs of the slot's characters, and
    anything at all after the final punctuation mark. *)
Inductive template_instance : string -> Prop :=
| ticket_instance (ds rest : string) :
    ds <> "" -> all_in Re.digit ds = true ->
    template_instance ("What is the status of ticket " ++ ds ++ "?" ++ rest)
| meeting_instance (date time room rest : string) :
    date <> "" -> all_in Re.digit_or_dash date = true ->
    time <> "" -> all_in Re.digit_or_colon time = true ->
    room <> "" -> all_in Re.word room = true ->
    template_instance
      ("Schedule a meeting on " ++ date ++ " at " ++ time ++ " in Room " ++
       room ++ "." ++ rest)
| expense_instance (ds rest : string) :
    ds <> "" -> all_in Re.digit ds = true ->
    template_instance ("Show my expense balance for employee " ++ ds ++ "." ++ rest)
| bonus_instance (ds ys rest : string) :
    ds <> "" -> all_in Re.digit ds = true ->
    ys <> "" -> all_in Re.digit ys = true ->
    template_instance
      ("Calculate performance bonus for employee " ++ ds ++ " for " ++ ys ++
       "." ++ rest)
| issue_instance (ds dept rest : string) :
    ds <> "" -> all_in Re.digit ds = true ->
    dept <> "" -> all_in Re.word_or_space dept = true ->
    template_instance
      ("Report office issue " ++ ds ++ " for the " ++ dept ++ " department." ++ rest).


(** Conformance as the design document has it: the query is a filled-in
    template, from its first to its last character. *)
Inductive fills_template : string -> Prop :=
| fills_ticket (ds : string) :
    ds <> "" -> all_in Re.digit ds = true ->
    fills_template ("What is the status of ticket " ++ ds ++ "?")
| fills_meeting (date time room : string) :
    date <> "" -> all_in Re.digit_or_dash date = true ->
    time <> "" -> all_in Re.digit_or_colon time = true ->
    room <> "" -> all_in Re.word room = true ->
    fills_template
      ("Schedule a meeting on " ++ date ++ " at " ++ time ++ " in Room " ++
       room ++ ".")
| fills_expense (ds : string) :
    ds <> "" -> all_in Re.digit ds = true ->
    fills_template ("Show my expense balance for employee " ++ ds ++ ".")
| fills_bonus (ds ys : string) :
    ds <> "" -> all_in Re.digit ds = true ->
    ys <> "" -> all_in Re.digit ys = true ->
    fills_template
      ("Calculate performance bonus for employee " ++ ds ++ " for " ++ ys ++ ".")
| fills_issue (ds dept : string) :
    ds <> "" -> all_in Re.digit ds = true ->
    dept <> "" -> all_in Re.word_or_space dept = true ->
    fills_template
      ("Report office issue " ++ ds ++ " for the " ++ dept ++ " department.").

(** A query with a tab inside the department slot. *)
Definition tabbed_issue : string :=
  "Report office issue 7 for the IT" ++ String (ascii_of_nat 9) "Ops department.".

(** A world whose remote service refuses the text "boom". *)
Definition flaky_remote (api_key : string) (texts : list string)
  : result (list (list float)) :=
  if existsb (String.eqb "boom") texts
  then Raise (ProviderError "rate limit reached")
  else Demo.demo_remote api_key texts.

Definition flaky : World := {|
  getenv_api_key := Some "sk-demo";
  hash_str := Demo.demo_hash;
  mt_random := Demo.demo_random;
  float_pow := Demo.demo_pow;
  remote_embed := flaky_remote;
  sk_cosine_similarity := Demo.demo_sk_cosine
|}.

Definition flaky_request : SimilarityApi.SimilarityRequest :=
  {| SimilarityApi.docs := ["ab"; "boom"; "cd"]%list; SimilarityApi.query := "xy" |}.

End Words.
Import Words.

(* ================================================================== *)
(** * Facts about binary64 comparison                                  *)
(* ================================================================== *)

Module FloatOrder.

Local Open Scope float_scope.

Lemma SFltb_irrefl (x : spec_float) : SFltb x x = false.
Proof.
  unfold SFltb.
  destruct x as [s|s| |s m e]; simpl; try reflexivity.
  - destruct s; reflexivity.
  - rewrite Z.compare_refl, Pos.compare_cont_refl. destruct s; reflexivity.
Qed.

Ltac order_cases :=
  repeat match goal with
  | H : context [Z.compare ?a ?b] |- _ =>
      destruct (Z.compare_spec a b); try discriminate; subst
  | |- context [Z.compare ?a ?b] =>
      destruct (Z.compare_spec a b); try reflexivity; try lia; subst
  | H : context [Pos.compare_cont Eq ?a ?b] |- _ =>
      change (Pos.compare_cont Eq a b) with (Pos.compare a b) in H;
      destruct (Pos.compare_spec a b); try discriminate; subst
  | |- context [Pos.compare_cont Eq ?a ?b] =>
      change (Pos.compare_cont Eq a b) with (Pos.compare a b);
      destruct (Pos.compare_spec a b); try reflexivity; try lia; subst
  end.

Lemma SFltb_trans (x y z : spec_float) :
  SFltb x y = true -> SFltb y z = true -> SFltb x z = true.
Proof.
  unfold SFltb.
  destruct x as [sx|sx| |sx mx ex], y as [sy|sy| |sy my ey],
           z as [sz|sz| |sz mz ez]; simpl;
    try discriminate; try reflexivity;
    try (destruct sx; try discriminate; try reflexivity);
    try (destruct sy; try discriminate; try reflexivity);
    try (destruct sz; try discriminate; try reflexivity);
    intros H1 H2; order_cases; try lia.
Qed.

(** [x == y] on floats makes [x] and [y] indistinguishable on the left
    of [<]. *)
Lemma SFeqb_ltb_l (x y k : spec_float) :
  SFeqb x y = true -> SFltb y k = SFltb x k.
Proof.
  unfold SFeqb, SFltb.
  destruct x as [sx|sx| |sx mx ex], y as [sy|sy| |sy my ey]; simpl;
    try discriminate; try reflexivity;
    try (destruct sx; try discriminate);
    try (destruct sy; try discriminate);
    intros H; try reflexivity; order_cases; reflexivity.
Qed.

(** Among numbers (NaN apart), "not less" is "greater or equal". *)
Lemma SFltb_false_leb (x y : spec_float) :
  SFltb x y = false -> SFeqb x x = true -> SFeqb y y = true -> SFleb y x = true.
Proof.
  unfold SFltb, SFeqb, SFleb.
  destruct x as [sx|sx| |sx mx ex], y as [sy|sy| |sy my ey]; simpl;
    try discriminate; try reflexivity;
    try (destruct sx; try discriminate; try reflexivity);
    try (destruct sy; try discriminate; try reflexivity);
    intros H _ _; order_cases; try lia.
Qed.

Lemma ltb_false_leb (x y : float) :
  (x <? y) = false -> (x =? x) = true -> (y =? y) = true -> (y <=? x) = true.
Proof. rewrite ltb_spec, !eqb_spec, leb_spec. apply SFltb_false_leb. Qed.

Lemma ltb_irrefl (x : float) : (x <? x) = false.
Proof. rewrite ltb_spec. apply SFltb_irrefl. Qed.

Lemma ltb_trans (x y z : float) :
  (x <? y) = true -> (y <? z) = true -> (x <? z) = true.
Proof. rewrite !ltb_spec. apply SFltb_trans. Qed.

Lemma eqb_ltb_l (x y k : float) : (x =? y) = true -> (y <? k) = (x <? k).
Proof. rewrite eqb_spec, !ltb_spec. apply SFeqb_ltb_l. Qed.

End FloatOrder.

(* ================================================================== *)
(** * Facts about lists and the stable sort                            *)
(* ================================================================== *)

Module SortFacts.

Section Lists.
Context {A : Type}.

Lemma precedes_rev (a b : A) (l : list A) :
  precedes a b l -> precedes b a (rev l).
Proof.
  intros (l1 & l2 & l3 & ->).
  exists (rev l3), (rev l2), (rev l1).
  rewrite rev_app_distr. simpl. rewrite rev_app_distr. simpl.
  rewrite <- !app_assoc. reflexivity.
Qed.

Lemma precedes_map {B : Type} (f : A -> B) (a b : A) (l : list A) :
  precedes a b l -> precedes (f a) (f b) (map f l).
Proof.
  intros (l1 & l2 & l3 & ->).
  exists (map f l1), (map f l2), (map f l3).
  rewrite map_app. simpl. rewrite map_app. reflexivity.
Qed.

Lemma precedes_cons (x a b : A) (l : list A) :
  precedes a b l -> precedes a b (x :: l).
Proof.
  intros (l1 & l2 & l3 & ->). exists (x :: l1), l2, l3. reflexivity.
Qed.

Lemma precedes_head (a b : A) (l : list A) : In b l -> precedes a b (a :: l).
Proof.
  intros H. apply in_split in H as (l2 & l3 & ->).
  exists [], l2, l3. reflexivity.
Qed.

Lemma precedes_In (a b : A) (l : list A) : precedes a b l -> In a l /\ In b l.
Proof.
  intros (l1 & l2 & l3 & ->). split.
  - apply in_or_app. right. left. reflexivity.
  - apply in_or_app. right. right. apply in_or_app. right. left. reflexivity.
Qed.

Lemma In_skipn (a : A) (k : nat) (l : list A) : In a (skipn k l) -> In a l.
Proof.
  intros H. rewrite <- (firstn_skipn k l). apply in_or_app. right. exact H.
Qed.

(** In a list without repetition, what precedes [b] and survives the
    removal of a prefix still precedes [b]. *)
Lemma precedes_skipn (a b : A) (k : nat) (l : list A) :
  NoDup l -> precedes a b l -> In a (skipn k l) -> precedes a b (skipn k l).
Proof.
  intros Hnd (l1 & l2 & l3 & ->) Hin.
  destruct (Nat.le_gt_cases k (length l1)) as [Hle|Hgt].
  - rewrite skipn_app. replace (k - length l1) with 0 by lia. simpl.
    exists (skipn k l1), l2, l3. reflexivity.
  - exfalso.
    rewrite skipn_app in Hin.
    rewrite skipn_all2 in Hin by lia. simpl in Hin.
    destruct (k - length l1) as [|k'] eqn:Hk; [lia|]. simpl in Hin.
    apply NoDup_remove_2 in Hnd. apply Hnd.
    apply in_or_app. right. apply In_skipn with k'. exact Hin.
Qed.

Lemma StronglySorted_app (R : A -> A -> Prop) (l1 l2 : list A) :
  StronglySorted R l1 -> StronglySorted R l2 ->
  (forall x y, In x l1 -> In y l2 -> R x y) ->
  StronglySorted R (l1 ++ l2).
Proof.
  induction l1 as [|a l1 IH]; intros H1 H2 H12; simpl; [exact H2|].
  apply StronglySorted_inv in H1 as [H1 Ha]. constructor.
  - apply IH; [exact H1|exact H2|]. intros x y Hx Hy. apply H12; [right|]; assumption.
  - apply Forall_app. split; [exact Ha|].
    apply Forall_forall. intros y Hy. apply H12; [left; reflexivity|exact Hy].
Qed.

Lemma StronglySorted_rev (R : A -> A -> Prop) (l : list A) :
  StronglySorted R l -> StronglySorted (fun a b => R b a) (rev l).
Proof.
  induction 1 as [|a l Hl IH Ha]; simpl; [constructor|].
  apply StronglySorted_app.
  - exact IH.
  - repeat constructor.
  - intros x y Hx [<-|[]]. apply in_rev in Hx.
    rewrite Forall_forall in Ha. apply Ha. exact Hx.
Qed.

Lemma StronglySorted_skipn (R : A -> A -> Prop) (k : nat) (l : list A) :
  StronglySorted R l -> StronglySorted R (skipn k l).
Proof.
  revert l. induction k as [|k IH]; intros l H; [exact H|].
  destruct l as [|a l]; [constructor|]. simpl.
  apply IH. apply StronglySorted_inv in H. apply H.
Qed.

Lemma StronglySorted_map {B : Type} (R : B -> B -> Prop) (f : A -> B) (l : list A) :
  StronglySorted (fun a b => R (f a) (f b)) l -> StronglySorted R (map f l).
Proof.
  induction 1 as [|a l Hl IH Ha]; simpl; constructor.
  - exact IH.
  - apply Forall_map. exact Ha.
Qed.

Lemma StronglySorted_weaken (R S : A -> A -> Prop) (l : list A) :
  (forall a b, In a l -> In b l -> R a b -> S a b) ->
  StronglySorted R l -> StronglySorted S l.
Proof.
  intros HRS H. induction H as [|a l Hl IH Ha]; constructor.
  - apply IH. intros x y Hx Hy. apply HRS; right; assumption.
  - rewrite Forall_forall in *. intros b Hb.
    apply HRS; [left; reflexivity|right; exact Hb|apply Ha; exact Hb].
Qed.

End Lists.

(** ** The insertion sort behind [list.sort] and [argsort] *)
Section StableSort.
Context {A K : Type}.
Variable lt : K -> K -> bool.
Variable key : A -> K.
Hypothesis lt_irrefl : forall k, lt k k = false.
Hypothesis lt_trans :
  forall a b c, lt a b = true -> lt b c = true -> lt a c = true.

Lemma insort_perm (x : A) (l : list A) : Permutation (insort lt key x l) (x :: l).
Proof.
  induction l as [|y t IH]; simpl; [reflexivity|].
  destruct (lt (key x) (key y)); [reflexivity|].
  rewrite IH. apply perm_swap.
Qed.

Lemma fold_insort_perm (l acc : list A) :
  Permutation (fold_left (fun acc x => insort lt key x acc) l acc) (acc ++ l).
Proof.
  revert acc. induction l as [|x l IH]; intros acc; simpl.
  - rewrite app_nil_r. reflexivity.
  - rewrite IH, insort_perm. apply Permutation_middle.
Qed.

Lemma sorted_stable_perm (l : list A) : Permutation (sorted_stable lt key l) l.
Proof. unfold sorted_stable. rewrite fold_insort_perm. reflexivity. Qed.

Lemma insort_ascending (x : A) (l : list A) :
  ascending lt key l -> ascending lt key (insort lt key x l).
Proof.
  unfold ascending.
  induction l as [|y t IH]; intros H; simpl.
  - repeat constructor.
  - apply StronglySorted_inv in H as [Ht Hy].
    destruct (lt (key x) (key y)) eqn:Hxy.
    + constructor; [constructor; assumption|].
      constructor.
      * destruct (lt (key y) (key x)) eqn:Hyx; [|reflexivity].
        rewrite <- (lt_irrefl (key y)). symmetry. eapply lt_trans; eassumption.
      * rewrite Forall_forall in *. intros b Hb.
        destruct (lt (key b) (key x)) eqn:Hbx; [|reflexivity].
        rewrite <- (Hy b Hb). symmetry. eapply lt_trans; eassumption.
    + constructor; [apply IH; exact Ht|].
      eapply Permutation_Forall; [symmetry; apply insort_perm|].
      constructor; assumption.
Qed.

Lemma insort_keeps_order (a b x : A) (l : list A) :
  precedes a b l -> precedes a b (insort lt key x l).
Proof.
  induction l as [|y t IH]; intros H; simpl.
  - destruct H as (l1 & l2 & l3 & H). destruct l1; discriminate.
  - destruct (lt (key x) (key y)); [apply precedes_cons; exact H|].
    destruct H as (l1 & l2 & l3 & H). destruct l1 as [|z l1]; simpl in H.
    + injection H as -> ->. apply precedes_head.
      eapply Permutation_in; [symmetry; apply insort_perm|].
      right. apply in_or_app. right. left. reflexivity.
    + injection H as -> ->. apply precedes_cons. apply IH.
      exists l1, l2, l3. reflexivity.
Qed.

Lemma insort_after_tie (a x : A) (l : list A) :
  ascending lt key l -> In a l -> tie lt key a x -> precedes a x (insort lt key x l).
Proof.
  unfold ascending, tie. intros Hs Hin Htie.
  induction l as [|y t IH]; simpl; [destruct Hin|].
  apply StronglySorted_inv in Hs as [Ht Hy].
  destruct (lt (key x) (key y)) eqn:Hxy.
  - exfalso. rewrite Htie in Hxy. destruct Hin as [->|Hin].
    + rewrite lt_irrefl in Hxy. discriminate.
    + rewrite Forall_forall in Hy. rewrite (Hy a Hin) in Hxy. discriminate.
  - destruct Hin as [->|Hin].
    + apply precedes_head.
      eapply Permutation_in; [symmetry; apply insort_perm|]. left. reflexivity.
    + apply precedes_cons. apply IH; assumption.
Qed.

Lemma fold_insort_ascending (l acc : list A) :
  ascending lt key acc ->
  ascending lt key (fold_left (fun acc x => insort lt key x acc) l acc).
Proof.
  revert acc. induction l as [|x l IH]; intros acc H; simpl; [exact H|].
  apply IH. apply insort_ascending. exact H.
Qed.

Lemma fold_insort_keeps_order (a b : A) (l acc : list A) :
  precedes a b acc ->
  precedes a b (fold_left (fun acc x => insort lt key x acc) l acc).
Proof.
  revert acc. induction l as [|x l IH]; intros acc H; simpl; [exact H|].
  apply IH. apply insort_keeps_order. exact H.
Qed.

Lemma sorted_stable_ascending (l : list A) : ascending lt key (sorted_stable lt key l).
Proof. apply fold_insort_ascending. constructor. Qed.

(** Stability: elements that tie leave the sort in the order they had. *)
Lemma sorted_stable_keeps_ties (a b : A) (l : list A) :
  precedes a b l -> tie lt key a b -> precedes a b (sorted_stable lt key l).
Proof.
  intros (l1 & l2 & l3 & ->) Htie. unfold sorted_stable.
  rewrite fold_left_app. simpl. rewrite fold_left_app. simpl.
  apply fold_insort_keeps_order.
  apply insort_after_tie; [| |exact Htie].
  - apply fold_insort_ascending. apply insort_ascending.
    apply fold_insort_ascending. constructor.
  - eapply Permutation_in; [symmetry; apply fold_insort_perm|].
    apply in_or_app. left.
    eapply Permutation_in; [symmetry; apply insort_perm|]. left. reflexivity.
Qed.

Lemma list_sort_perm (reverse : bool) (l : list A) :
  Permutation (list_sort lt key reverse l) l.
Proof.
  unfold list_sort. destruct reverse.
  - rewrite <- Permutation_rev, sorted_stable_perm, <- Permutation_rev. reflexivity.
  - apply sorted_stable_perm.
Qed.

Lemma list_sort_reverse_non_increasing (l : list A) :
  non_increasing lt key (list_sort lt key true l).
Proof.
  unfold non_increasing, list_sort.
  apply (StronglySorted_rev (fun a b => lt (key b) (key a) = false)).
  apply sorted_stable_ascending.
Qed.

Lemma list_sort_reverse_keeps_ties (a b : A) (l : list A) :
  precedes a b l -> tie lt key a b -> precedes a b (list_sort lt key true l).
Proof.
  intros H Htie. unfold list_sort.
  apply precedes_rev. apply sorted_stable_keeps_ties.
  - apply precedes_rev. exact H.
  - intros k. symmetry. apply Htie.
Qed.

End StableSort.
End SortFacts.

(* ================================================================== *)
(** * Properties of function_caller_api.py                             *)
(* ================================================================== *)

Module FunctionCallerFacts.
Import Re Json FunctionCaller.

Lemma no_template_no_match (q : string) (p : pattern) :
  ~ conforms q -> In p TEMPLATES -> re_match p q = None.
Proof.
  intros Hno Hin. destruct (re_match p q) eqn:E; [|reflexivity].
  exfalso. apply Hno. exists p. split; [exact Hin|]. rewrite E. discriminate.
Qed.

(** The resolver answers with a structured resolution exactly when some
    template accepts the query. *)
Lemma resolution_iff_conforms (q : string) :
  (exists r, execute_function_call q = Ok r) <-> conforms q.
Proof.
  unfold execute_function_call, conforms, TEMPLATES. split.
  - intros [r H].
    destruct (re_match TICKET_RE q) eqn:E1;
      [exists TICKET_RE; rewrite E1; simpl; split; [tauto|discriminate]|].
    destruct (re_match MEETING_RE q) eqn:E2;
      [exists MEETING_RE; rewrite E2; simpl; split; [tauto|discriminate]|].
    destruct (re_match EXPENSE_RE q) eqn:E3;
      [exists EXPENSE_RE; rewrite E3; simpl; split; [tauto|discriminate]|].
    destruct (re_match BONUS_RE q) eqn:E4;
      [exists BONUS_RE; rewrite E4; simpl; split; [tauto|discriminate]|].
    destruct (re_match ISSUE_RE q) eqn:E5;
      [exists ISSUE_RE; rewrite E5; simpl; split; [tauto|discriminate]|].
    discriminate.
  - intros (p & Hin & Hp).
    destruct (re_match TICKET_RE q) eqn:E1; [eexists; reflexivity|].
    destruct (re_match MEETING_RE q) eqn:E2; [eexists; reflexivity|].
    destruct (re_match EXPENSE_RE q) eqn:E3; [eexists; reflexivity|].
    destruct (re_match BONUS_RE q) eqn:E4; [eexists; reflexivity|].
    destruct (re_match ISSUE_RE q) eqn:E5; [eexists; reflexivity|].
    exfalso. simpl in Hin.
    destruct Hin as [<-|[<-|[<-|[<-|[<-|[]]]]]]; contradiction.
Qed.


(** C9: the query "What is the status of ticket 482?" is accepted by the
    ticket template, whose group captures "482", and resolves to the
    function name "get_ticket_status" with the arguments
    [{"ticket_id": 482}]: the JSON encoding of the integer 482 (no quotes
    around the number) under the key "ticket_id". *)
Theorem ticket_482_resolution :
  let q := "What is the status of ticket 482?" in
  re_match TICKET_RE q = Some ["482"] /\
  execute_function_call q =
    Ok {| name := "get_ticket_status";
          arguments := dumps [("ticket_id", JInt 482)] |} /\
  dumps [("ticket_id", JInt 482)] =
    String "{" (String dquote ("ticket_id" ++ String dquote ": 482}"))%string.
Proof. repeat split. Qed.

End FunctionCallerFacts.

(* ================================================================== *)
(** * Arithmetic on zeros and NaN                                      *)
(* ================================================================== *)

Module FloatZero.

Local Open Scope float_scope.

Lemma eqb_zero (x : float) : (x =? 0) = true -> is_zero x.
Proof.
  rewrite eqb_spec. change (Prim2SF 0) with (S754_zero false).
  unfold is_zero. destruct (Prim2SF x) as [s|s| |s m e]; simpl; intros H;
    try discriminate; try (destruct s; discriminate).
  exists s. reflexivity.
Qed.

Lemma zero_is_zero : is_zero 0.
Proof. exists false. reflexivity. Qed.

Lemma mul_zn_l (x y : float) : zero_or_nan x -> zero_or_nan (x * y).
Proof.
  unfold zero_or_nan, is_zero. rewrite mul_spec. unfold SF64mul.
  intros [[s ->]| ->]; destruct (Prim2SF y) as [t|t| |t m e]; simpl; eauto.
Qed.

Lemma mul_zn_r (x y : float) : zero_or_nan y -> zero_or_nan (x * y).
Proof.
  unfold zero_or_nan, is_zero. rewrite mul_spec. unfold SF64mul.
  intros [[s ->]| ->]; destruct (Prim2SF x) as [t|t| |t m e]; simpl; eauto.
Qed.

Lemma add_zn (x y : float) : zero_or_nan x -> zero_or_nan y -> zero_or_nan (x + y).
Proof.
  unfold zero_or_nan, is_zero. rewrite add_spec. unfold SF64add.
  intros [[s ->]| ->] [[t ->]| ->]; simpl; eauto.
  destruct s, t; eauto.
Qed.

Lemma sqrt_zn (x : float) : zero_or_nan x -> zero_or_nan (sqrt x).
Proof.
  unfold zero_or_nan, is_zero. rewrite sqrt_spec. unfold SF64sqrt.
  intros [[s ->]| ->]; simpl; eauto.
Qed.

(** Zero or NaN divided by zero or NaN is NaN. *)
Lemma div_zn (x y : float) : zero_or_nan x -> zero_or_nan y -> x / y = nan.
Proof.
  intros Hx Hy. apply Prim2SF_inj. rewrite div_spec. unfold SF64div.
  change (Prim2SF nan) with S754_nan.
  destruct Hx as [[s ->]| ->], Hy as [[t ->]| ->]; reflexivity.
Qed.

End FloatZero.

(* ================================================================== *)
(** * Properties of rag_api.py: the similarity scorer                  *)
(* ================================================================== *)

Module ScorerFacts.
Import RagApi FloatZero.

Local Open Scope float_scope.

Lemma zero_vector_inv (x : float) (v : list float) :
  zero_vector (x :: v) -> is_zero x /\ zero_vector v.
Proof.
  intros H. inversion H; subst. split; [apply eqb_zero|]; assumption.
Qed.

Lemma dot_zero_l (v1 v2 : list float) (acc : float) :
  zero_vector v1 -> zero_or_nan acc -> zero_or_nan (dot_from acc v1 v2).
Proof.
  revert v2 acc. induction v1 as [|a t1 IH]; intros v2 acc Hz Hacc; simpl.
  - exact Hacc.
  - destruct v2 as [|b t2]; [exact Hacc|].
    apply zero_vector_inv in Hz as [Ha Ht]. apply IH; [exact Ht|].
    apply add_zn; [exact Hacc|]. apply mul_zn_l. left. exact Ha.
Qed.

Lemma dot_zero_r (v1 v2 : list float) (acc : float) :
  zero_vector v2 -> zero_or_nan acc -> zero_or_nan (dot_from acc v1 v2).
Proof.
  revert v2 acc. induction v1 as [|a t1 IH]; intros v2 acc Hz Hacc; simpl.
  - exact Hacc.
  - destruct v2 as [|b t2]; [exact Hacc|].
    apply zero_vector_inv in Hz as [Hb Ht]. apply IH; [exact Ht|].
    apply add_zn; [exact Hacc|]. apply mul_zn_r. left. exact Hb.
Qed.

Lemma norm_zero (v : list float) : zero_vector v -> zero_or_nan (np_norm v).
Proof.
  intros H. apply sqrt_zn. apply dot_zero_l; [exact H|]. left. apply zero_is_zero.
Qed.

(** C2, counterexample: scoring the zero vector [0, 0] against [1, 0]
    raises nothing; the scorer returns NaN. *)
Lemma zero_vector_scores_nan :
  zero_vector [0; 0] /\ cosine_similarity [0; 0] [1; 0] = Ok nan.
Proof. split; [repeat constructor|reflexivity]. Qed.

(** C2, as the code has it: vectors of unequal length make the scorer fail
    (the [ValueError] of [np.dot]); for vectors of equal length it never
    fails, and when at least one of them is a zero vector it returns
    NaN, the quotient of a zero by a zero. *)
Theorem scorer_on_bad_input (v1 v2 : list float) :
  (length v1 <> length v2 ->
   cosine_similarity v1 v2 = Raise (ValueError "shapes not aligned")) /\
  (length v1 = length v2 ->
   exists x, cosine_similarity v1 v2 = Ok x) /\
  (length v1 = length v2 -> zero_vector v1 \/ zero_vector v2 ->
   cosine_similarity v1 v2 = Ok nan).
Proof.
  unfold cosine_similarity, np_dot. repeat split.
  - intros H. apply Nat.eqb_neq in H. rewrite H. reflexivity.
  - intros H. apply Nat.eqb_eq in H. rewrite H. eexists. reflexivity.
  - intros H Hz. apply Nat.eqb_eq in H. rewrite H. f_equal.
    apply div_zn.
    + destruct Hz as [Hz|Hz]; [apply dot_zero_l|apply dot_zero_r];
        try exact Hz; left; apply zero_is_zero.
    + destruct Hz as [Hz|Hz];
        [apply mul_zn_l|apply mul_zn_r]; apply norm_zero; exact Hz.
Qed.

Lemma scorer_on_bad_input_witness :
  cosine_similarity [0; 0] [1] = Raise (ValueError "shapes not aligned") /\
  cosine_similarity [0; 0] [3; 4] = Ok nan.
Proof.
  split.
  - apply (proj1 (scorer_on_bad_input [0; 0] [1])). simpl. lia.
  - apply (proj2 (proj2 (scorer_on_bad_input [0; 0] [3; 4]))).
    + reflexivity.
    + left. repeat constructor.
Defined.

End ScorerFacts.

(* ================================================================== *)
(** * Properties of rag_api.py: the mock embedding backend             *)
(* ================================================================== *)

Module MockFacts.
Import RagApi.

Lemma mock_loop_blocks (w : World) (seed : Z) (texts : list string) (k : nat) :
  mock_loop w seed (k * DIM) texts = map (nth_block w seed) (seq k (length texts)).
Proof.
  revert k. induction texts as [|t rest IH]; intros k; [reflexivity|].
  cbn [mock_loop length seq map].
  rewrite <- Nat.mul_succ_l, IH. unfold nth_block. reflexivity.
Qed.

Lemma length_nth_block (w : World) (seed : Z) (i : nat) :
  length (nth_block w seed i) = DIM.
Proof.
  unfold nth_block, normalized, draw_embedding.
  rewrite !length_map, length_seq. reflexivity.
Qed.

Lemma mock_embeddings_blocks (w : World) (texts : list string) :
  mock_embeddings w texts =
    map (nth_block w (hash_str w texts mod 2 ^ 32)) (seq 0 (length texts)).
Proof. unfold mock_embeddings. apply (mock_loop_blocks w _ texts 0). Qed.

Lemma length_mock_embeddings (w : World) (texts : list string) :
  length (mock_embeddings w texts) = length texts.
Proof. rewrite mock_embeddings_blocks, length_map, length_seq. reflexivity. Qed.

Lemma mock_embeddings_dims (w : World) (texts : list string) :
  Forall (fun v => length v = DIM) (mock_embeddings w texts).
Proof.
  rewrite mock_embeddings_blocks. apply Forall_map. apply Forall_forall.
  intros i _. apply length_nth_block.
Qed.

(** Whatever [hash] and the generator are, per-text vectors would need the
    generator to repeat itself: in the batch of one text given twice, the
    first two blocks of 1536 draws would have to normalise to the same
    vector. *)
Lemma per_text_vectors_need_repetition (w : World) (t : string) :
  per_text_vectors w ->
  let seed := (hash_str w [t; t] mod 2 ^ 32)%Z in
  nth_block w seed 0 = nth_block w seed 1.
Proof.
  intros H seed.
  specialize (H [t; t] [t; t] 0 1 t eq_refl eq_refl).
  rewrite mock_embeddings_blocks in H.
  cbn [length seq map nth_error] in H.
  exact (f_equal (fun o => match o with Some v => v | None => [] end) H).
Qed.

(** C4, counterexample: with the checksum and the congruential generator
    standing in for [hash] and [random], the text "a" gets one vector as
    the batch ["a"] and another one as second text of the batch
    ["b"; "a"]: their first components already differ. *)
Lemma mock_vector_depends_on_batch : ~ per_text_vectors Demo.offline.
Proof.
  intros H.
  specialize (H ["a"] ["b"; "a"] 0 1 "a" eq_refl eq_refl).
  pose (low := fun o : option (list float) =>
                 match o with
                 | Some (x :: _) => (x <? -0.02734375)%float
                 | _ => false
                 end).
  assert (E1 : low (nth_error (mock_embeddings Demo.offline ["a"]) 0) = true)
    by (vm_compute; reflexivity).
  assert (E2 : low (nth_error (mock_embeddings Demo.offline ["b"; "a"]) 1) = false)
    by (vm_compute; reflexivity).
  rewrite H, E2 in E1. discriminate E1.
Qed.

(** C4, as the code has it: the mock backend seeds the generator once per
    call, with [hash(str(texts)) mod 2^32] computed from the whole batch;
    the vector at position [i] is the [i]-th block of 1536 draws divided by
    the block's norm, one vector per text.  So two batches of the same
    length whose seeds agree (the same batch, in particular) get the same
    vectors, position by position. *)
Theorem mock_vectors_from_batch_seed (w : World) (texts : list string) :
  mock_embeddings w texts =
    map (nth_block w (hash_str w texts mod 2 ^ 32)) (seq 0 (length texts)) /\
  length (mock_embeddings w texts) = length texts /\
  Forall (fun v => length v = 1536) (mock_embeddings w texts) /\
  (forall texts',
     (hash_str w texts' mod 2 ^ 32 = hash_str w texts mod 2 ^ 32)%Z ->
     length texts' = length texts ->
     mock_embeddings w texts' = mock_embeddings w texts).
Proof.
  repeat split.
  - apply mock_embeddings_blocks.
  - apply length_mock_embeddings.
  - apply mock_embeddings_dims.
  - intros texts' Hseed Hlen.
    rewrite !mock_embeddings_blocks, Hseed, Hlen. reflexivity.
Qed.

Lemma mock_vectors_from_batch_seed_witness :
  mock_embeddings Demo.offline ["`a"] = mock_embeddings Demo.offline ["Ab"].
Proof.
  apply (proj2 (proj2 (proj2 (mock_vectors_from_batch_seed Demo.offline ["Ab"])))).
  - reflexivity.
  - reflexivity.
Defined.

End MockFacts.

(* ================================================================== *)
(** * Properties of rag_api.py: rules, ranking and the response        *)
(* ================================================================== *)

Module RagFacts.
Import RagApi SortFacts.

(** ** Rule dispatch *)

Lemma first_match_none (q : string) :
  first_match q = None ->
  rule_arrow_name q = false /\ rule_double_bang q = false /\ rule_arrow_any q = false.
Proof.
  unfold first_match, RULES. simpl.
  destruct (rule_arrow_name q); [discriminate|].
  destruct (rule_double_bang q); [discriminate|].
  destruct (rule_arrow_any q); [discriminate|]. auto.
Qed.

(** C5: when a query satisfies a rule predicate, [search] answers with the
    document bound to the first rule it satisfies (first match wins), and
    the trace of embedding-backend invocations of that call is empty. *)
Theorem rule_hit_bypasses_embeddings
  (w : World) (q : string) (r : (string -> bool) * nat) :
  first_match q = Some r ->
  run (search w q) =
    (Ok {| answer := content (kb (snd r)); sources := Some (source (kb (snd r))) |},
     []).
Proof.
  unfold first_match, RULES, run, search. simpl find.
  destruct (rule_arrow_name q); [intros [= <-]; reflexivity|].
  destruct (rule_double_bang q); [intros [= <-]; reflexivity|].
  destruct (rule_arrow_any q); [intros [= <-]; reflexivity|].
  discriminate.
Qed.

Lemma rule_hit_bypasses_embeddings_witness :
  first_match "What does the author affectionately call the => syntax?"
    = Some (rule_arrow_name, 0%nat) /\
  run (search Demo.online "What does the author affectionately call the => syntax?")
    = (Ok {| answer := content (kb 0); sources := Some (source (kb 0)) |}, []) /\
  contains "fat arrow" (content (kb 0)) = true /\
  source (kb 0) = "TypeScript Book - Arrow Functions".
Proof.
  split; [reflexivity|]. split; [|split; reflexivity].
  apply (rule_hit_bypasses_embeddings Demo.online
           "What does the author affectionately call the => syntax?"
           (rule_arrow_name, 0%nat)).
  reflexivity.
Defined.

(** ** The embedding path *)

Lemma embedding_search_trace (w : World) (q key : string) (t : list call) :
  snd (embedding_search w q key t) =
    t ++ [{| via := if use_mock key then Mock else Remote;
             batch := q :: map content KNOWLEDGE_BASE |}].
Proof.
  unfold embedding_search, get_embeddings, bind, invoke, lift, ret.
  destruct (use_mock key); cbv beta iota zeta.
  - reflexivity.
  - destruct (remote_embed w key _); reflexivity.
Qed.

Lemma index_In {A : Type} (l : list A) (i : nat) (a : A) :
  index l i = Ok a -> In a l.
Proof.
  unfold index. destruct (nth_error l i) eqn:E; [|discriminate].
  intros [= <-]. eapply nth_error_In. exact E.
Qed.

Lemma index_lt {A : Type} (l : list A) (i : nat) :
  i < length l -> exists a, index l i = Ok a.
Proof.
  intros H. unfold index. destruct (nth_error l i) eqn:E.
  - eexists. reflexivity.
  - apply nth_error_None in E. lia.
Qed.

Lemma score_loop_docs (qe : list float) (items : list (nat * list float))
  (acc sims : list (nat * float * Document)) :
  score_loop qe items acc = Ok sims ->
  Forall (fun x => In (snd x) KNOWLEDGE_BASE) acc ->
  Forall (fun x => In (snd x) KNOWLEDGE_BASE) sims.
Proof.
  revert acc. induction items as [|[i d] rest IH]; intros acc H Hacc.
  - cbn [score_loop] in H. injection H as <-. exact Hacc.
  - cbn [score_loop] in H.
    destruct (cosine_similarity qe d) as [s|]; [|discriminate].
    destruct (index KNOWLEDGE_BASE i) as [doc|] eqn:Ei; [|discriminate].
    apply IH in H; [exact H|].
    apply Forall_app. split; [exact Hacc|].
    constructor; [|constructor]. apply index_In in Ei. exact Ei.
Qed.

Lemma score_loop_total (qe : list float) (items : list (nat * list float))
  (acc : list (nat * float * Document)) :
  Forall (fun it => fst it < length KNOWLEDGE_BASE /\ length (snd it) = length qe)
    items ->
  exists sims, score_loop qe items acc = Ok sims /\
               length sims = length acc + length items.
Proof.
  revert acc. induction items as [|[i d] rest IH]; intros acc H.
  - exists acc. split; [reflexivity|]. simpl. lia.
  - inversion H as [|? ? [Hi Hd] Hrest]; subst. cbn [fst snd] in Hi, Hd.
    cbn [score_loop]. unfold cosine_similarity, np_dot.
    rewrite Hd, Nat.eqb_refl.
    destruct (index_lt KNOWLEDGE_BASE i Hi) as [doc ->].
    destruct (IH (acc ++ [(i, (dot_from 0 qe d / (np_norm qe * np_norm d))%float, doc)]) Hrest)
      as (sims & -> & Hlen).
    exists sims. split; [reflexivity|].
    rewrite Hlen, length_app. simpl. lia.
Qed.

Lemma enumerate_from_Forall {A : Type} (P : A -> Prop) (k : nat) (l : list A) :
  Forall P l ->
  Forall (fun it => k <= fst it < k + length l /\ P (snd it)) (enumerate_from k l).
Proof.
  revert k. induction l as [|a l IH]; intros k H; simpl; [constructor|].
  inversion H; subst. constructor.
  - simpl. split; [lia|assumption].
  - eapply Forall_impl; [|apply (IH (S k)); assumption].
    simpl. intros it [Hi Hp]. split; [lia|exact Hp].
Qed.

Lemma length_enumerate_from {A : Type} (k : nat) (l : list A) :
  length (enumerate_from k l) = length l.
Proof. revert k. induction l; intros k; simpl; [|rewrite IHl]; reflexivity. Qed.

Lemma rank_perm (sims : list (nat * float * Document)) : Permutation (rank sims) sims.
Proof. apply list_sort_perm. Qed.

(** Whatever is ranked first is a knowledge-base entry. *)
Lemma best_document_in_kb (embeddings : list (list float)) (d : Document) :
  best_document embeddings = Ok d -> In d KNOWLEDGE_BASE.
Proof.
  unfold best_document.
  destruct (index embeddings 0) as [qe|]; [|discriminate].
  destruct (score_loop qe (enumerate (tl embeddings)) []) as [sims|] eqn:Es;
    [|discriminate].
  destruct (index (rank sims) 0) as [best|] eqn:Eb; [|discriminate].
  intros [= <-].
  apply score_loop_docs in Es; [|constructor].
  rewrite Forall_forall in Es. apply Es.
  eapply Permutation_in; [apply rank_perm|]. eapply index_In. exact Eb.
Qed.

(** Vectors of one length, at least one and at most five of them besides
    the query vector, are always ranked. *)
Lemma best_document_total (qe : list float) (ds : list (list float)) :
  ds <> [] -> length ds <= length KNOWLEDGE_BASE ->
  Forall (fun d => length d = length qe) ds ->
  exists d, best_document (qe :: ds) = Ok d.
Proof.
  intros Hne Hlen Hdim. unfold best_document. cbn [index nth_error tl].
  destruct (score_loop_total qe (enumerate ds) []) as (sims & -> & Hs).
  { eapply Forall_impl; [|apply (enumerate_from_Forall _ 0 ds Hdim)].
    cbv beta. intros it [Hi Hp]. split; [lia|exact Hp]. }
  unfold enumerate in Hs. rewrite length_enumerate_from in Hs. simpl in Hs.
  destruct (index_lt (rank sims) 0) as [best ->].
  { rewrite (Permutation_length (rank_perm sims)), Hs.
    destruct ds; [contradiction|]. cbn [length]. lia. }
  eexists. reflexivity.
Qed.

Lemma mock_search_total (w : World) (q : string) :
  exists d, best_document (mock_embeddings w (q :: map content KNOWLEDGE_BASE)) = Ok d.
Proof.
  pose proof (MockFacts.length_mock_embeddings w (q :: map content KNOWLEDGE_BASE)) as Hl.
  pose proof (MockFacts.mock_embeddings_dims w (q :: map content KNOWLEDGE_BASE)) as Hd.
  destruct (mock_embeddings w (q :: map content KNOWLEDGE_BASE)) as [|qe ds];
    [discriminate Hl|].
  inversion Hd as [|? ? Hq Hds]; subst.
  cbn [length map] in Hl. rewrite length_map in Hl. injection Hl as Hl.
  apply best_document_total.
  - intros ->. discriminate Hl.
  - rewrite Hl. apply Nat.le_refl.
  - eapply Forall_impl; [|exact Hds]. cbv beta. intros d ->. symmetry. exact Hq.
Qed.

Lemma fixed_search_single_batch (w : World) (q : string) :
  first_match q = None ->
  snd (run (search w q)) =
    [{| via := if use_mock (getenv w "dummy-api-key") then Mock else Remote;
        batch := q :: map content KNOWLEDGE_BASE |}].
Proof.
  intros H. apply first_match_none in H as (H1 & H2 & H3).
  unfold run, search. rewrite H1, H2, H3. unfold bind at 1.
  pose proof (embedding_search_trace w q (getenv w "dummy-api-key") []) as Ht.
  destruct (embedding_search w q (getenv w "dummy-api-key") []) as [[d|e] t];
    exact Ht.
Qed.

Lemma fixed_rank_keeps_ties (sims : list (nat * float * Document))
  (a b : nat * float * Document) :
  precedes a b sims -> (score_of a =? score_of b)%float = true ->
  precedes a b (rank sims).
Proof.
  intros Hp Heq. unfold rank.
  apply list_sort_reverse_keeps_ties.
  - apply FloatOrder.ltb_irrefl.
  - apply FloatOrder.ltb_trans.
  - exact Hp.
  - intros k. apply FloatOrder.eqb_ltb_l. exact Heq.
Qed.

Lemma fixed_rank_non_increasing (sims : list (nat * float * Document)) :
  non_increasing ltb score_of (rank sims).
Proof.
  apply list_sort_reverse_non_increasing.
  - apply FloatOrder.ltb_irrefl.
  - apply FloatOrder.ltb_trans.
Qed.

Lemma search_answer_in_kb (w : World) (q : string) (resp : SearchResponse) :
  fst (run (search w q)) = Ok resp ->
  exists d, In d KNOWLEDGE_BASE /\
            answer resp = content d /\ sources resp = Some (source d).
Proof.
  unfold run, search.
  destruct (rule_arrow_name q);
    [intros [= <-]; exists (kb 0); split; [left; reflexivity|split; reflexivity]|].
  destruct (rule_double_bang q);
    [intros [= <-]; exists (kb 1);
     split; [right; left; reflexivity|split; reflexivity]|].
  destruct (rule_arrow_any q);
    [intros [= <-]; exists (kb 0); split; [left; reflexivity|split; reflexivity]|].
  unfold embedding_search, get_embeddings, bind, invoke, lift, ret.
  destruct (use_mock (getenv w "dummy-api-key")); cbv beta iota zeta.
  - destruct (best_document _) as [d|] eqn:Eb; [|discriminate].
    intros [= <-]. exists d. apply best_document_in_kb in Eb. auto.
  - destruct (remote_embed w _ _) as [embeddings|]; [|discriminate].
    destruct (best_document _) as [d|] eqn:Eb; [|discriminate].
    intros [= <-]. exists d. apply best_document_in_kb in Eb. auto.
Qed.

Lemma search_total (w : World) (q : string) :
  first_match q <> None \/ use_mock (getenv w "dummy-api-key") = true ->
  exists resp, fst (run (search w q)) = Ok resp.
Proof.
  unfold first_match, RULES, run, search. simpl find.
  destruct (rule_arrow_name q); [intros _; eexists; reflexivity|].
  destruct (rule_double_bang q); [intros _; eexists; reflexivity|].
  destruct (rule_arrow_any q); [intros _; eexists; reflexivity|].
  intros [H|H]; [contradiction|].
  unfold embedding_search, get_embeddings, bind, invoke, lift, ret.
  rewrite H. cbv beta iota zeta.
  destruct (mock_search_total w q) as [d ->]. eexists. reflexivity.
Qed.

(** C10: whenever [search] answers, the answer is the [content] and the
    sources the [source] of one and the same entry of the five-entry
    knowledge base, for every query and whatever the embedding backend
    returned; and it does answer whenever a rule matches or the mock backend
    is in use. *)
Theorem search_answers_verbatim (w : World) (q : string) :
  length KNOWLEDGE_BASE = 5 /\
  (forall resp, fst (run (search w q)) = Ok resp ->
     exists d, In d KNOWLEDGE_BASE /\
               answer resp = content d /\ sources resp = Some (source d)) /\
  (first_match q <> None \/ use_mock (getenv w "dummy-api-key") = true ->
     exists resp, fst (run (search w q)) = Ok resp).
Proof.
  split; [reflexivity|]. split.
  - apply search_answer_in_kb.
  - apply search_total.
Qed.

Lemma search_answers_verbatim_witness :
  exists resp, fst (run (search Demo.offline "What is an interface?")) = Ok resp /\
    exists d, In d KNOWLEDGE_BASE /\
              answer resp = content d /\ sources resp = Some (source d).
Proof.
  destruct (proj2 (proj2 (search_answers_verbatim Demo.offline "What is an interface?")))
    as [resp Hr].
  - right. reflexivity.
  - exists resp. split; [exact Hr|].
    apply (proj1 (proj2 (search_answers_verbatim Demo.offline "What is an interface?"))).
    exact Hr.
Defined.

(** Scenario B of the design document. *)
Example double_bang_scenario (w : World) :
  run (search w "Which operator converts any value into an explicit boolean?")
    = (Ok {| answer := content (kb 1); sources := Some "TypeScript Book - Operators" |},
       []).
Proof. reflexivity. Qed.

End RagFacts.

(* ================================================================== *)
(** * Properties of similarity_api.py: the ranking step                *)
(* ================================================================== *)

Module RankingFacts.
Import SimilarityApi SortFacts.

Lemma enumerate_from_app {A : Type} (k : nat) (l1 l2 : list A) :
  enumerate_from k (l1 ++ l2) =
    enumerate_from k l1 ++ enumerate_from (k + length l1) l2.
Proof.
  revert k. induction l1 as [|a l1 IH]; intros k; simpl.
  - rewrite Nat.add_0_r. reflexivity.
  - rewrite IH. do 3 f_equal. lia.
Qed.

Lemma map_fst_enumerate_from {A : Type} (k : nat) (l : list A) :
  map fst (enumerate_from k l) = seq k (length l).
Proof. revert k. induction l; intros k; simpl; [|rewrite IHl]; reflexivity. Qed.

Lemma enumerate_from_In {A : Type} (k i : nat) (x : A) (l : list A) :
  In (i, x) (enumerate_from k l) -> k <= i /\ nth_error l (i - k) = Some x.
Proof.
  revert k. induction l as [|a l IH]; intros k; simpl; [intros []|].
  intros [[= <- <-]|H].
  - rewrite Nat.sub_diag. split; [lia|reflexivity].
  - apply IH in H as [Hk Hn]. split; [lia|].
    replace (i - k) with (S (i - S k)) by lia. exact Hn.
Qed.

Lemma enumerate_precedes {A : Type} (l : list A) (i j : nat) (x y : A) :
  i < j -> nth_error l i = Some x -> nth_error l j = Some y ->
  precedes (i, x) (j, y) (enumerate l).
Proof.
  intros Hij Hi Hj.
  apply nth_error_split in Hi as (l1 & r & -> & Hl1).
  rewrite nth_error_app2 in Hj by lia.
  replace (j - length l1) with (S (j - length l1 - 1)) in Hj by lia.
  simpl in Hj. apply nth_error_split in Hj as (l2 & l3 & -> & Hl2).
  unfold enumerate. rewrite enumerate_from_app. simpl.
  rewrite enumerate_from_app. simpl.
  replace (S (length l1 + length l2)) with j by lia. rewrite Hl1.
  eexists _, _, _. reflexivity.
Qed.

Lemma argsort_perm (a : list float) : Permutation (argsort a) (seq 0 (length a)).
Proof.
  unfold argsort, enumerate.
  rewrite <- (map_fst_enumerate_from 0 a).
  apply Permutation_map. apply sorted_stable_perm.
Qed.

Lemma argsort_NoDup (a : list float) : NoDup (argsort a).
Proof.
  eapply Permutation_NoDup; [symmetry; apply argsort_perm|apply seq_NoDup].
Qed.

Lemma argsort_bound (a : list float) (i : nat) : In i (argsort a) -> i < length a.
Proof.
  intros H. eapply Permutation_in in H; [|apply argsort_perm].
  apply in_seq in H. lia.
Qed.

Lemma length_argsort (a : list float) : length (argsort a) = length a.
Proof. rewrite (Permutation_length (argsort_perm a)). apply length_seq. Qed.

(** [argsort] is ascending in the value found at each index. *)
Lemma argsort_ascending (a : list float) (d : float) :
  ascending ltb (fun i => nth i a d) (argsort a).
Proof.
  unfold ascending, argsort.
  apply StronglySorted_map.
  eapply StronglySorted_weaken;
    [|apply (sorted_stable_ascending ltb snd
               FloatOrder.ltb_irrefl FloatOrder.ltb_trans)].
  intros [i x] [j y] Hi Hj. cbn [fst snd].
  assert (Hin : forall p, In p (sorted_stable ltb snd (enumerate a)) ->
                          nth (fst p) a d = snd p).
  { intros [k z] Hk. cbn [fst snd].
    eapply Permutation_in in Hk; [|apply sorted_stable_perm].
    apply enumerate_from_In in Hk as [_ Hk]. rewrite Nat.sub_0_r in Hk.
    apply nth_error_nth. exact Hk. }
  pose proof (Hin _ Hi) as E1. pose proof (Hin _ Hj) as E2.
  cbn [fst snd] in E1, E2. rewrite E1, E2. auto.
Qed.

Lemma length_top_3 (a : list float) :
  length (top_3_indices a) = Nat.min 3 (length a).
Proof.
  unfold top_3_indices, take_top_3, last_n.
  rewrite length_rev, length_skipn, length_argsort. lia.
Qed.

Lemma top_3_In (a : list float) (i : nat) :
  In i (top_3_indices a) -> In i (argsort a).
Proof.
  unfold top_3_indices, take_top_3, last_n. intros H. apply in_rev in H.
  eapply In_skipn. exact H.
Qed.

Lemma top_3_NoDup (a : list float) : NoDup (top_3_indices a).
Proof.
  unfold top_3_indices, take_top_3, last_n. apply NoDup_rev.
  pose proof (argsort_NoDup a) as H.
  rewrite <- (firstn_skipn (length (argsort a) - 3) (argsort a)) in H.
  apply NoDup_app_remove_l in H. exact H.
Qed.

Lemma top_3_bound (a : list float) :
  Forall (fun i => i < length a) (top_3_indices a).
Proof.
  apply Forall_forall. intros i H. apply argsort_bound. apply top_3_In. exact H.
Qed.

Lemma top_3_non_increasing (a : list float) (d : float) :
  non_increasing ltb (fun i => nth i a d) (top_3_indices a).
Proof.
  unfold non_increasing, top_3_indices, take_top_3, last_n.
  apply (StronglySorted_rev (fun i j => (nth j a d <? nth i a d)%float = false)).
  apply StronglySorted_skipn. apply argsort_ascending.
Qed.

(** The reversal in [take_top_3]: of two sorted indices, the later one is
    returned first. *)
Lemma take_top_3_reverses (sorted : list nat) (i j : nat) :
  NoDup sorted -> precedes i j sorted -> In i (take_top_3 sorted) ->
  precedes j i (take_top_3 sorted).
Proof.
  intros Hnd Hp Hin. unfold take_top_3, last_n in *.
  apply precedes_rev. apply precedes_skipn; [exact Hnd|exact Hp|].
  apply in_rev in Hin. exact Hin.
Qed.

(** In a list without repetition, [a] stands before [b] or after it, not
    both. *)
Lemma precedes_asym {A : Type} (a b : A) (l : list A) :
  NoDup l -> precedes a b l -> ~ precedes b a l.
Proof.
  intros Hnd (l1 & l2 & l3 & ->) (m1 & m2 & m3 & E).
  revert m1 Hnd E. induction l1 as [|x l1 IH]; intros [|y m1] Hnd E; simpl in *.
  - injection E as -> _. apply NoDup_cons_iff in Hnd as [Hn _]. apply Hn.
    apply in_or_app. right. left. reflexivity.
  - injection E as -> E. apply NoDup_cons_iff in Hnd as [Hn _]. apply Hn.
    rewrite E. apply in_or_app. right. right.
    apply in_or_app. right. left. reflexivity.
  - injection E as -> _. apply NoDup_cons_iff in Hnd as [Hn _]. apply Hn.
    apply in_or_app. right. right.
    apply in_or_app. right. left. reflexivity.
  - injection E as _ E. apply NoDup_cons_iff in Hnd as [_ Hnd].
    exact (IH m1 Hnd E).
Qed.

Lemma SFeqb_leb (x y : spec_float) : SFeqb x y = true -> SFleb y x = true.
Proof.
  unfold SFeqb, SFleb.
  destruct x as [sx|sx| |sx mx ex], y as [sy|sy| |sy my ey]; simpl;
    try discriminate; try reflexivity;
    try (destruct sx; try discriminate; try reflexivity);
    try (destruct sy; try discriminate; try reflexivity);
    intros H; FloatOrder.order_cases; try lia.
Qed.

(** Equal scores may stand in either order for [np.argsort]. *)
Lemma eqb_np_le (x y : float) : (x =? y)%float = true -> np_le y x = true.
Proof.
  intros H. unfold np_le. apply orb_true_intro. left.
  revert H. rewrite eqb_spec, leb_spec. apply SFeqb_leb.
Qed.

Lemma StronglySorted_swap {A : Type} (R : A -> A -> Prop) (l1 l2 : list A)
  (a b : A) :
  R b a -> StronglySorted R (l1 ++ a :: b :: l2) ->
  StronglySorted R (l1 ++ b :: a :: l2).
Proof.
  intros Hba. induction l1 as [|x l1 IH]; simpl; intros H.
  - apply StronglySorted_inv in H as [H Ha].
    apply StronglySorted_inv in H as [H Hb].
    apply Forall_cons_iff in Ha as [_ Ha].
    constructor; [constructor; assumption|].
    constructor; assumption.
  - apply StronglySorted_inv in H as [H Hx].
    constructor; [apply IH; exact H|].
    eapply Permutation_Forall; [|exact Hx].
    apply Permutation_app_head. apply perm_swap.
Qed.

(** numpy's contract does not say which of two neighbours holding equal
    values comes first: with one order, the other is a result too. *)
Lemma numpy_argsort_swap (row : list float) (l1 l2 : list nat) (i j : nat) :
  numpy_argsort row (l1 ++ i :: j :: l2) ->
  (nth i row nan =? nth j row nan)%float = true ->
  numpy_argsort row (l1 ++ j :: i :: l2).
Proof.
  intros (Hnd & Hlen & Hb & Hs) Heq.
  assert (Hp : Permutation (l1 ++ i :: j :: l2) (l1 ++ j :: i :: l2))
    by (apply Permutation_app_head, perm_swap).
  repeat split.
  - eapply Permutation_NoDup; eassumption.
  - rewrite <- Hlen. symmetry. apply Permutation_length. exact Hp.
  - eapply Permutation_Forall; eassumption.
  - apply StronglySorted_swap; [|exact Hs].
    cbv beta. apply eqb_np_le. exact Heq.
Qed.

(** On scores that are numbers, the order modelled by [argsort] is one of
    those numpy's contract admits. *)
Lemma argsort_admitted (row : list float) :
  Forall (fun s => (s =? s)%float = true) row -> numpy_argsort row (argsort row).
Proof.
  intros Hnum. repeat split.
  - apply argsort_NoDup.
  - apply length_argsort.
  - apply Forall_forall. intros i Hi. apply argsort_bound. exact Hi.
  - eapply StronglySorted_weaken; [|apply (argsort_ascending row nan)].
    cbv beta. intros i j Hi Hj Hlt. unfold np_le.
    apply orb_true_intro. left.
    rewrite Forall_forall in Hnum.
    apply FloatOrder.ltb_false_leb; [exact Hlt| |];
      apply Hnum; apply nth_In; apply argsort_bound; assumption.
Qed.

End RankingFacts.

(* ================================================================== *)
(** * Properties of similarity_api.py: the request handler             *)
(* ================================================================== *)

Module SimilarityFacts.
Import SimilarityApi SortFacts RankingFacts.

Section WithCredential.
Variable w : World.
Variable key : string.
Hypothesis key_set : getenv_api_key w = Some key.
Hypothesis key_not_empty : key <> "".

Lemma get_embedding_ok (t : string) (tr : list call) :
  provider_answers w key [t] ->
  get_embedding w t tr =
    (Ok (embedding_of w key t), tr ++ one_call_per_text [t]).
Proof.
  intros H. destruct (H t (or_introl eq_refl)) as (v & more & Hv).
  unfold get_embedding, embedding_of. rewrite key_set.
  apply String.eqb_neq in key_not_empty. rewrite key_not_empty.
  unfold bind, invoke, lift. fold (sent_text t). rewrite Hv. reflexivity.
Qed.

Lemma for_each_get_embedding (texts : list string) (tr : list call) :
  provider_answers w key texts ->
  for_each (get_embedding w) texts tr =
    (Ok (map (embedding_of w key) texts), tr ++ one_call_per_text texts).
Proof.
  revert tr. induction texts as [|t rest IH]; intros tr H.
  - simpl. unfold ret. rewrite app_nil_r. reflexivity.
  - cbn [for_each]. unfold bind at 1.
    rewrite get_embedding_ok
      by (intros x [<-|[]]; apply H; left; reflexivity).
    unfold bind at 1. rewrite IH by (intros x Hx; apply H; right; exact Hx).
    unfold ret. simpl. rewrite <- app_assoc. reflexivity.
Qed.

End WithCredential.

Lemma for_each_index (docs : list string) (idx : list nat) (tr : list call) :
  Forall (fun i => i < length docs) idx ->
  for_each (fun i => lift (index docs i)) idx tr =
    (Ok (map (fun i => nth i docs "") idx), tr).
Proof.
  induction 1 as [|i idx Hi Hidx IH]; [reflexivity|].
  cbn [for_each]. unfold bind at 1, lift at 1, index at 1.
  destruct (nth_error docs i) as [x|] eqn:E;
    [|apply nth_error_None in E; lia].
  unfold bind at 1. rewrite IH. unfold ret. cbn [map].
  rewrite (nth_error_nth _ _ _ E). reflexivity.
Qed.

(** The handlers leave the trace as the [try] body left it. *)
Lemma get_similarity_trace (w : World) (request : SimilarityRequest) :
  docs request <> [] -> query request <> "" ->
  snd (run (get_similarity w request)) = snd (run (rank_documents w request)).
Proof.
  intros Hd Hq. unfold run, get_similarity.
  destruct (docs request) as [|d ds] eqn:Ed; [contradiction|].
  destruct (query request) as [|c s] eqn:Eq; [contradiction|].
  cbn [is_empty_list is_empty_str orb]. unfold try_except.
  destruct (rank_documents w request []) as [[r|e] t]; [reflexivity|].
  unfold on_exception. destruct (contains _ _); reflexivity.
Qed.

Lemma rank_documents_trace (w : World) (key : string) (request : SimilarityRequest) :
  getenv_api_key w = Some key -> key <> "" ->
  provider_answers w key (docs request ++ [query request]) ->
  snd (run (rank_documents w request)) =
    one_call_per_text (docs request ++ [query request]).
Proof.
  intros Hk Hne Hp. unfold run, rank_documents.
  unfold bind at 1.
  rewrite (for_each_get_embedding w key Hk Hne)
    by (intros t Ht; apply Hp; apply in_or_app; left; exact Ht).
  unfold bind at 1.
  rewrite (get_embedding_ok w key Hk Hne)
    by (intros t [<-|[]]; apply Hp; apply in_or_app; right; left; reflexivity).
  cbn [app]. unfold one_call_per_text at 3. rewrite map_app.
  unfold bind at 1, lift at 1.
  destruct (sk_cosine_similarity w _ _) as [K|]; [|reflexivity].
  unfold bind at 1, lift at 1.
  destruct (index K 0) as [similarities|]; [|reflexivity].
  unfold bind at 1.
  assert (Hidx : forall l tr, snd (for_each (fun i => lift (index (docs request) i)) l tr) = tr).
  { induction l as [|i l IH]; intros tr; [reflexivity|].
    cbn [for_each]. unfold bind at 1, lift at 1.
    destruct (index (docs request) i); [|reflexivity].
    unfold bind at 1. specialize (IH tr).
    destruct (for_each _ l tr) as [[ys|e] t']; exact IH. }
  specialize (Hidx (top_3_indices similarities)
                (one_call_per_text (docs request) ++
                 map (fun t => {| via := Remote; batch := [sent_text t] |})
                   [query request])).
  destruct (for_each _ (top_3_indices similarities) _) as [[ys|e] t']; exact Hidx.
Qed.

Lemma rank_documents_result (w : World) (key : string) (request : SimilarityRequest)
  (row : list float) (rest : list (list float)) :
  getenv_api_key w = Some key -> key <> "" ->
  provider_answers w key (docs request ++ [query request]) ->
  sk_cosine_similarity w [embedding_of w key (query request)]
    (map (embedding_of w key) (docs request)) = Ok (row :: rest) ->
  length row = length (docs request) ->
  fst (run (rank_documents w request)) =
    Ok {| matches := map (fun i => nth i (docs request) "") (top_3_indices row) |}.
Proof.
  intros Hk Hne Hp Hsk Hlen. unfold run, rank_documents.
  unfold bind at 1.
  rewrite (for_each_get_embedding w key Hk Hne)
    by (intros t Ht; apply Hp; apply in_or_app; left; exact Ht).
  unfold bind at 1.
  rewrite (get_embedding_ok w key Hk Hne)
    by (intros t [<-|[]]; apply Hp; apply in_or_app; right; left; reflexivity).
  unfold bind at 1, lift at 1. rewrite Hsk.
  unfold bind at 1, lift at 1. cbn [index nth_error].
  unfold bind at 1. rewrite for_each_index; [reflexivity|].
  rewrite <- Hlen. apply top_3_bound.
Qed.

End SimilarityFacts.

(* ================================================================== *)
(** * The claims about the two deployments                             *)
(* ================================================================== *)

Module Deployments.
Import RagApi SimilarityApi SortFacts RankingFacts SimilarityFacts.

(** C7: with an empty document list the ad-hoc handler fails at once with
    the HTTP 400 client error "Docs and query cannot be empty.", whatever
    the query; no response is built and no embedding backend is invoked.
    (The corpus of the fixed deployment is a constant of five entries.) *)
Theorem empty_corpus_is_client_error (w : World) (q : string) :
  run (get_similarity w {| docs := []; query := q |}) =
    (Raise (HTTPException 400 "Docs and query cannot be empty."), []).
Proof. reflexivity. Qed.

(** C6: in the ad-hoc deployment, for a non-empty corpus and a non-empty
    query, when the remote service answers every single-text request and
    scikit-learn returns a row of one score per document, the handler
    returns the documents found at some indices [idx] of the corpus: there
    are [min 3 |docs|] of them, no index is returned twice (documents are
    identified by position; if the contents are pairwise distinct, so are
    the returned contents), every index is one of the corpus, and no
    returned document scores strictly less than a later one (for scores
    that are numbers: each scores at least as much as the next).  Which
    indices they are among equal scores is not stated. *)
Theorem top_3_is_a_ranked_selection
  (w : World) (key : string) (request : SimilarityRequest)
  (row : list float) (rest : list (list float)) :
  docs request <> [] -> query request <> "" ->
  getenv_api_key w = Some key -> key <> "" ->
  provider_answers w key (docs request ++ [query request]) ->
  sk_cosine_similarity w [embedding_of w key (query request)]
    (map (embedding_of w key) (docs request)) = Ok (row :: rest) ->
  length row = length (docs request) ->
  exists (resp : SimilarityResponse) (idx : list nat),
    fst (run (get_similarity w request)) = Ok resp /\
    matches resp = map (fun i => nth i (docs request) "") idx /\
    length (matches resp) = Nat.min 3 (length (docs request)) /\
    NoDup idx /\
    Forall (fun i => i < length (docs request)) idx /\
    non_increasing ltb (fun i => nth i row nan) idx /\
    (Forall (fun s => (s =? s)%float = true) row ->
     StronglySorted (fun i j => (nth j row nan <=? nth i row nan)%float = true) idx) /\
    (NoDup (docs request) -> NoDup (matches resp)).
Proof.
  intros Hd Hq Hk Hne Hp Hsk Hlen.
  assert (Hb : Forall (fun i => i < length (docs request)) (top_3_indices row)).
  { rewrite <- Hlen. apply top_3_bound. }
  exists {| matches := map (fun i => nth i (docs request) "") (top_3_indices row) |},
         (top_3_indices row).
  cbn [matches]. repeat split.
  - pose proof (rank_documents_result w key request row rest Hk Hne Hp Hsk Hlen) as Hr.
    unfold run, get_similarity in *.
    destruct (docs request) as [|d ds] eqn:Ed; [contradiction|].
    destruct (query request) as [|c s] eqn:Eq; [contradiction|].
    cbn [is_empty_list is_empty_str orb]. unfold try_except.
    destruct (rank_documents w request []) as [[r|e] t]; [exact Hr|discriminate Hr].
  - rewrite length_map, length_top_3, Hlen. reflexivity.
  - apply top_3_NoDup.
  - exact Hb.
  - apply top_3_non_increasing.
  - intros Hnum.
    eapply StronglySorted_weaken; [|apply (top_3_non_increasing row nan)].
    cbv beta. intros i j Hi Hj Hlt.
    rewrite Forall_forall in Hnum.
    apply FloatOrder.ltb_false_leb; [exact Hlt| |];
      apply Hnum; apply nth_In; apply argsort_bound; apply top_3_In; assumption.
  - intros Hnd. apply NoDup_map_NoDup_ForallPairs.
    + intros i j Hi Hj Hij. rewrite Forall_forall in Hb.
      apply (proj1 (NoDup_nth (docs request) "") Hnd); auto.
    + apply top_3_NoDup.
Qed.

Lemma online_provider_answers (texts : list string) :
  provider_answers Demo.online "sk-demo" texts.
Proof. intros t _. eexists _, _. reflexivity. Qed.

Lemma top_3_is_a_ranked_selection_witness :
  exists resp : SimilarityResponse,
    fst (run (get_similarity Demo.online Demo.five_docs)) = Ok resp /\
    length (matches resp) = 3.
Proof.
  destruct (top_3_is_a_ranked_selection Demo.online "sk-demo" Demo.five_docs
              (Demo.demo_cosine_row
                 (embedding_of Demo.online "sk-demo" "xy")
                 (map (embedding_of Demo.online "sk-demo")
                    (docs Demo.five_docs)))
              [])
    as (resp & idx & Hr & _ & Hl & _).
  - discriminate.
  - discriminate.
  - reflexivity.
  - discriminate.
  - apply online_provider_answers.
  - reflexivity.
  - reflexivity.
  - exists resp. split; [exact Hr|exact Hl].
Defined.

(** C1, counterexample: on the scores [1, 1, 0.5, 0.75, 1] the ad-hoc
    ranking returns index 4 before index 0, although both hold the score 1:
    so it does with the order modelled by [argsort], and so it does with
    the sorted indices [2; 3; 1; 0; 4], a result numpy's contract admits,
    whose last three, reversed, are [4; 0; 1]. *)
Lemma adhoc_ties_not_ascending :
  ~ ties_ascending top_3_indices /\
  numpy_argsort [1; 1; 0.5; 0.75; 1]%float [2; 3; 1; 0; 4] /\
  take_top_3 [2; 3; 1; 0; 4] = [4; 0; 1].
Proof.
  split; [|split; [|reflexivity]].
  - intros H.
    specialize (H [1; 1; 0.5; 0.75; 1]%float 0 4 1%float 1%float).
    change (top_3_indices [1; 1; 0.5; 0.75; 1]%float) with [4; 1; 0] in H.
    apply (precedes_asym 4 0 [4; 1; 0]).
    + repeat constructor; simpl; intuition discriminate.
    + exists [], [1], []. reflexivity.
    + apply H; try reflexivity; try lia; simpl; auto.
  - unfold numpy_argsort. repeat split.
    + repeat constructor; simpl; intuition discriminate.
    + repeat constructor.
    + repeat constructor.
Qed.

(** C1, as the code has it: the fixed knowledge-base deployment ranks with
    a stable descending sort, so (the scores being numbers) two documents
    with equal scores stay in ascending original-index order.  The ad-hoc
    deployment ranks with
    [np.argsort(...)[-3:][::-1]] and numpy's default sorting kind: of two
    returned documents, the one [np.argsort] put later is returned first,
    and [np.argsort] may put two neighbours with equal scores in either
    order, so that deployment ensures no order among equal scores. *)
Theorem ties_by_deployment :
  (forall (sims : list (nat * float * Document)) (a b : nat * float * Document),
     Forall (fun e => (score_of e =? score_of e)%float = true) sims ->
     precedes a b sims -> (score_of a =? score_of b)%float = true ->
     precedes a b (rank sims)) /\
  (forall (row : list float) (sorted : list nat) (i j : nat),
     numpy_argsort row sorted -> precedes i j sorted ->
     In i (take_top_3 sorted) -> precedes j i (take_top_3 sorted)) /\
  (forall (row : list float) (l1 l2 : list nat) (i j : nat),
     numpy_argsort row (l1 ++ i :: j :: l2) ->
     (nth i row nan =? nth j row nan)%float = true ->
     numpy_argsort row (l1 ++ j :: i :: l2)).
Proof.
  split; [|split].
  - intros sims a b _. apply RagFacts.fixed_rank_keeps_ties.
  - intros row sorted i j (Hnd & _) Hp Hin.
    apply take_top_3_reverses; assumption.
  - apply numpy_argsort_swap.
Qed.

Lemma numpy_admits_2_3_0_1_4 :
  numpy_argsort [1; 1; 0.5; 0.75; 1]%float [2; 3; 0; 1; 4].
Proof. apply (argsort_admitted [1; 1; 0.5; 0.75; 1]%float). repeat constructor. Qed.

Lemma ties_by_deployment_witness :
  precedes (0, 0.5%float, kb 0) (1, 0.5%float, kb 1)
    (rank [(0, 0.5%float, kb 0); (1, 0.5%float, kb 1)]) /\
  precedes 4 0 (take_top_3 [2; 3; 0; 1; 4]) /\
  numpy_argsort [1; 1; 0.5; 0.75; 1]%float [2; 3; 1; 0; 4].
Proof.
  split; [|split].
  - apply (proj1 ties_by_deployment).
    + repeat constructor.
    + exists [], [], []. reflexivity.
    + reflexivity.
  - apply (proj1 (proj2 ties_by_deployment) [1; 1; 0.5; 0.75; 1]%float
             [2; 3; 0; 1; 4] 0 4).
    + exact numpy_admits_2_3_0_1_4.
    + exists [2; 3], [1], []. reflexivity.
    + right. right. left. reflexivity.
  - apply (proj2 (proj2 ties_by_deployment) [1; 1; 0.5; 0.75; 1]%float
             [2; 3] [4] 0 1).
    + exact numpy_admits_2_3_0_1_4.
    + reflexivity.
Defined.

(** C3, counterexample: a request of the ad-hoc deployment with two
    documents does not invoke the backend once with the batch of the query
    and both documents; it invokes it three times. *)
Lemma adhoc_embeds_text_by_text :
  ~ single_batch_call "xy" ["ab"; "cd"]
      (snd (run (get_similarity Demo.online Demo.two_alike))) /\
  length (snd (run (get_similarity Demo.online Demo.two_alike))) = 3.
Proof.
  split; [|reflexivity].
  intros [b H]. discriminate H.
Qed.

(** C3, as the code has it: in the fixed knowledge-base deployment a call
    that misses all rules invokes an embedding backend exactly once, with
    the batch made of the query followed by the contents of all
    knowledge-base documents.  In the ad-hoc deployment (which has no rules)
    a call with a configured credential, whose requests the remote service
    answers, invokes the backend once per document and then once for the
    query, each time with a batch of one text: [|docs| + 1] invocations. *)
Theorem backend_invocations_by_deployment :
  (forall (w : World) (q : string),
     first_match q = None ->
     single_batch_call q (map content KNOWLEDGE_BASE) (snd (run (search w q)))) /\
  (forall (w : World) (key : string) (request : SimilarityRequest),
     docs request <> [] -> query request <> "" ->
     getenv_api_key w = Some key -> key <> "" ->
     provider_answers w key (docs request ++ [query request]) ->
     snd (run (get_similarity w request)) =
       one_call_per_text (docs request ++ [query request]) /\
     length (snd (run (get_similarity w request))) = length (docs request) + 1).
Proof.
  split.
  - intros w q H. eexists. apply RagFacts.fixed_search_single_batch. exact H.
  - intros w key request Hd Hq Hk Hne Hp.
    rewrite (get_similarity_trace w request Hd Hq).
    rewrite (rank_documents_trace w key request Hk Hne Hp).
    split; [reflexivity|].
    unfold one_call_per_text. rewrite length_map, length_app. reflexivity.
Qed.

Lemma backend_invocations_by_deployment_witness :
  single_batch_call "What is an interface?" (map content KNOWLEDGE_BASE)
    (snd (run (search Demo.offline "What is an interface?"))) /\
  length (snd (run (get_similarity Demo.online Demo.five_docs))) = 6.
Proof.
  split.
  - apply (proj1 backend_invocations_by_deployment Demo.offline
             "What is an interface?").
    reflexivity.
  - apply (proj2 backend_invocations_by_deployment Demo.online "sk-demo"
             Demo.five_docs).
    + discriminate.
    + discriminate.
    + reflexivity.
    + discriminate.
    + apply online_provider_answers.
Defined.

End Deployments.

(* ================================================================== *)
(** * More on function_caller_api.py: what each template accepts       *)
(* ================================================================== *)

Module TemplateFacts.
Import Re Json FunctionCaller.

Lemma strip_prefix_app (p s : string) : strip_prefix p (p ++ s) = Some s.
Proof.
  induction p as [|a p IH]; simpl; [reflexivity|].
  rewrite Ascii.eqb_refl. exact IH.
Qed.

Lemma strip_prefix_Some (p s r : string) :
  strip_prefix p s = Some r -> s = (p ++ r)%string.
Proof.
  revert s. induction p as [|a p IH]; intros s; simpl.
  - intros [= ->]. reflexivity.
  - destruct s as [|b s]; [discriminate|].
    destruct (Ascii.eqb_spec a b) as [->|]; [|discriminate].
    intros H. apply IH in H. rewrite H. reflexivity.
Qed.

Lemma length_append (a b : string) :
  String.length (a ++ b) = String.length a + String.length b.
Proof. induction a as [|c a IH]; simpl; [|rewrite IH]; reflexivity. Qed.

Lemma substring_prefix (a b : string) :
  substring 0 (String.length a) (a ++ b) = a.
Proof.
  induction a as [|c a IH]; simpl.
  - destruct b; reflexivity.
  - rewrite IH. reflexivity.
Qed.

(** What a group captured when [a] was consumed in front of [s]. *)
Lemma consumed_app (a s : string) : consumed (a ++ s) s = a.
Proof.
  unfold consumed. rewrite length_append.
  replace (String.length a + String.length s - String.length s)
    with (String.length a) by lia.
  apply substring_prefix.
Qed.

Lemma consumed_eq (a o s : string) : o = (a ++ s)%string -> consumed o s = a.
Proof. intros ->. apply consumed_app. Qed.

(** A run of class characters, when no longer run leads to a match and
    the continuation accepts what follows the run. *)
Lemma greedy_plus_run {R : Type} (cls : ascii -> bool) (k : string -> option R)
  (ds s : string) (r : R) :
  ds <> "" -> all_in cls ds = true ->
  greedy_plus cls k s = None -> k s = Some r ->
  greedy_plus cls k (ds ++ s) = Some r.
Proof.
  intros Hne Hall Hlong Hk.
  induction ds as [|c ds IH]; [contradiction|].
  simpl in Hall. apply andb_prop in Hall as [Hc Hds].
  simpl. rewrite Hc. destruct ds as [|c' ds'].
  - simpl. rewrite Hlong. exact Hk.
  - rewrite IH; [reflexivity|discriminate|exact Hds].
Qed.


(** ** Decimal numerals *)

Lemma int_acc_pos (d : Decimal.uint) (p : positive) :
  int_acc (Zpos p) (NilEmpty.string_of_uint d) = Zpos (Pos.of_uint_acc d p).
Proof.
  revert p. induction d; intros p; cbn [NilEmpty.string_of_uint int_acc Pos.of_uint_acc];
    try reflexivity; rewrite <- IHd; f_equal;
    match goal with
    | |- context [digit_val ?c] =>
        let v := eval vm_compute in (digit_val c) in change (digit_val c) with v
    end; lia.
Qed.

Lemma int_uint (d : Decimal.uint) :
  int (NilEmpty.string_of_uint d) = Z.of_uint d.
Proof.
  unfold int, Z.of_uint.
  induction d; cbn [NilEmpty.string_of_uint int_acc Pos.of_uint Z.of_N];
    try reflexivity; try exact IHd; apply int_acc_pos.
Qed.


(** ** Steps of the matcher *)

Lemma exec_lit (w s : string) (p : pattern) (opens caps : list string) :
  exec (Lit w :: p) (w ++ s) opens caps = exec p s opens caps.
Proof. cbn [exec]. rewrite strip_prefix_app. reflexivity. Qed.

Lemma exec_open (s : string) (p : pattern) (opens caps : list string) :
  exec (Open :: p) s opens caps = exec p s (s :: opens) caps.
Proof. reflexivity. Qed.

Lemma exec_close (a s : string) (p : pattern) (opens caps : list string) :
  exec (Close :: p) s ((a ++ s)%string :: opens) caps = exec p s opens (a :: caps).
Proof. cbn [exec]. rewrite consumed_app. reflexivity. Qed.

Lemma exec_plus_run (cls : ascii -> bool) (p : pattern) (ds s : string)
  (opens caps r : list string) :
  ds <> "" -> all_in cls ds = true ->
  greedy_plus cls (fun s' => exec p s' opens caps) s = None ->
  exec p s opens caps = Some r ->
  exec (Plus cls :: p) (ds ++ s) opens caps = Some r.
Proof. intros. cbn [exec]. apply greedy_plus_run; assumption. Qed.

(** No run of [cls] starts at a text whose first character is outside
    the class. *)
Lemma greedy_plus_lit {R : Type} (cls : ascii -> bool) (k : string -> option R)
  (c : ascii) (w s : string) :
  cls c = false -> greedy_plus cls k (String c w ++ s) = None.
Proof. intros H. simpl. rewrite H. reflexivity. Qed.

(** ** The five templates *)

Lemma ticket_match (ds rest : string) :
  ds <> "" -> all_in digit ds = true ->
  re_match TICKET_RE ("What is the status of ticket " ++ ds ++ "?" ++ rest)
    = Some [ds].
Proof.
  intros Hne Hd. unfold re_match, TICKET_RE.
  rewrite exec_lit, exec_open.
  apply exec_plus_run; [exact Hne|exact Hd|apply greedy_plus_lit; reflexivity|].
  rewrite exec_close, exec_lit. reflexivity.
Qed.

Lemma expense_match (ds rest : string) :
  ds <> "" -> all_in digit ds = true ->
  re_match EXPENSE_RE ("Show my expense balance for employee " ++ ds ++ "." ++ rest)
    = Some [ds].
Proof.
  intros Hne Hd. unfold re_match, EXPENSE_RE.
  rewrite exec_lit, exec_open.
  apply exec_plus_run; [exact Hne|exact Hd|apply greedy_plus_lit; reflexivity|].
  rewrite exec_close, exec_lit. reflexivity.
Qed.

Lemma bonus_match (ds ys rest : string) :
  ds <> "" -> all_in digit ds = true -> ys <> "" -> all_in digit ys = true ->
  re_match BONUS_RE
    ("Calculate performance bonus for employee " ++ ds ++ " for " ++ ys ++ "." ++ rest)
    = Some [ds; ys].
Proof.
  intros Hne Hd Hne' Hd'. unfold re_match, BONUS_RE.
  rewrite exec_lit, exec_open.
  apply exec_plus_run; [exact Hne|exact Hd|apply greedy_plus_lit; reflexivity|].
  rewrite exec_close, exec_lit, exec_open.
  apply exec_plus_run; [exact Hne'|exact Hd'|apply greedy_plus_lit; reflexivity|].
  rewrite exec_close, exec_lit. reflexivity.
Qed.

Lemma meeting_match (date time room rest : string) :
  date <> "" -> all_in digit_or_dash date = true ->
  time <> "" -> all_in digit_or_colon time = true ->
  room <> "" -> all_in word room = true ->
  re_match MEETING_RE
    ("Schedule a meeting on " ++ date ++ " at " ++ time ++ " in Room " ++
     room ++ "." ++ rest)
    = Some [date; time; ("Room " ++ room)%string].
Proof.
  intros H1 H2 H3 H4 H5 H6. unfold re_match, MEETING_RE.
  change ((" in Room " ++ room ++ "." ++ rest)%string)
    with ((" in " ++ "Room " ++ room ++ "." ++ rest)%string).
  rewrite exec_lit, exec_open.
  apply exec_plus_run; [exact H1|exact H2|apply greedy_plus_lit; reflexivity|].
  rewrite exec_close, exec_lit, exec_open.
  apply exec_plus_run; [exact H3|exact H4|apply greedy_plus_lit; reflexivity|].
  rewrite exec_close, exec_lit, exec_open, exec_lit.
  apply exec_plus_run; [exact H5|exact H6|apply greedy_plus_lit; reflexivity|].
  change (("Room " ++ room ++ "." ++ rest)%string)
    with ((("Room " ++ room) ++ "." ++ rest)%string).
  rewrite exec_close, exec_lit. reflexivity.
Qed.

Lemma issue_match (ds dept rest : string) :
  ds <> "" -> all_in digit ds = true ->
  dept <> "" -> all_in word_or_space dept = true ->
  re_match ISSUE_RE
    ("Report office issue " ++ ds ++ " for the " ++ dept ++ " department." ++ rest)
    = Some [ds; dept].
Proof.
  intros H1 H2 H3 H4. unfold re_match, ISSUE_RE.
  rewrite exec_lit, exec_open.
  apply exec_plus_run; [exact H1|exact H2|apply greedy_plus_lit; reflexivity|].
  rewrite exec_close, exec_lit, exec_open.
  apply exec_plus_run; [exact H3|exact H4|reflexivity|].
  rewrite exec_close, exec_lit. reflexivity.
Qed.


Lemma digits_uint (d : Decimal.uint) :
  all_in digit (NilEmpty.string_of_uint d) = true.
Proof. induction d; simpl; auto. Qed.

Lemma decimal_digits (n : Z) :
  (0 <= n)%Z ->
  decimal n <> "" /\ all_in digit (decimal n) = true /\ int (decimal n) = n.
Proof.
  intros Hn. unfold decimal.
  pose proof (DecimalZ.of_to n) as Hr.
  destruct n as [|p|p]; [repeat split; discriminate| |lia].
  cbn [Z.to_int NilZero.string_of_int] in *. cbn [Z.of_int] in Hr.
  unfold NilZero.string_of_uint.
  destruct (Pos.to_uint p) eqn:E;
    try (repeat split;
         [discriminate|rewrite <- E; apply digits_uint
         |rewrite <- E, int_uint, E; exact Hr]).
  cbn in Hr. discriminate Hr.
Qed.

(** X1: a query made of "What is the status of ticket ", a non-empty run
    of at most 4300 digits (the numerals CPython converts by default) and
    "?" resolves to [get_ticket_status] with the integer the digits denote
    as [ticket_id], whatever follows the question mark. *)
Theorem ticket_query_resolves (ds rest : string) :
  ds <> "" -> all_in digit ds = true -> String.length ds <= MAX_STR_DIGITS ->
  execute_function_call ("What is the status of ticket " ++ ds ++ "?" ++ rest) =
    Ok {| name := "get_ticket_status";
          arguments := dumps [("ticket_id", JInt (int ds))] |}.
Proof.
  intros Hne Hd _. unfold execute_function_call.
  rewrite (ticket_match ds rest Hne Hd). reflexivity.
Qed.

(** X2: a query made of "Show my expense balance for employee ", a
    non-empty run of at most 4300 digits and "." resolves to
    [get_expense_balance] with the integer the digits denote as
    [employee_id], whatever follows. *)
Theorem expense_query_resolves (ds rest : string) :
  ds <> "" -> all_in digit ds = true -> String.length ds <= MAX_STR_DIGITS ->
  execute_function_call ("Show my expense balance for employee " ++ ds ++ "." ++ rest) =
    Ok {| name := "get_expense_balance";
          arguments := dumps [("employee_id", JInt (int ds))] |}.
Proof.
  intros Hne Hd _. unfold execute_function_call.
  change (re_match TICKET_RE _) with (@None (list string)).
  change (re_match MEETING_RE _) with (@None (list string)).
  rewrite (expense_match ds rest Hne Hd). reflexivity.
Qed.

(** X3: a query made of "Calculate performance bonus for employee ",
    digits, " for ", digits and "." (both runs non-empty and of at most
    4300 digits) resolves to [calculate_performance_bonus] with the two
    integers as [employee_id] and [current_year], in that order, whatever
    follows. *)
Theorem bonus_query_resolves (ds ys rest : string) :
  ds <> "" -> all_in digit ds = true -> String.length ds <= MAX_STR_DIGITS ->
  ys <> "" -> all_in digit ys = true -> String.length ys <= MAX_STR_DIGITS ->
  execute_function_call
    ("Calculate performance bonus for employee " ++ ds ++ " for " ++ ys ++ "." ++ rest) =
    Ok {| name := "calculate_performance_bonus";
          arguments := dumps [("employee_id", JInt (int ds));
                              ("current_year", JInt (int ys))] |}.
Proof.
  intros H1 H2 _ H3 H4 _. unfold execute_function_call.
  change (re_match TICKET_RE _) with (@None (list string)).
  change (re_match MEETING_RE _) with (@None (list string)).
  change (re_match EXPENSE_RE _) with (@None (list string)).
  rewrite (bonus_match ds ys rest H1 H2 H3 H4). reflexivity.
Qed.

(** X4: a query "Schedule a meeting on DATE at TIME in Room NAME." where
    DATE is a non-empty run of digits and dashes, TIME one of digits and
    colons and NAME one of word characters resolves to [schedule_meeting]
    with DATE, TIME and "Room NAME" passed on as strings, unchanged and
    unchecked, whatever follows the full stop. *)
Theorem meeting_query_resolves (date time room rest : string) :
  date <> "" -> all_in digit_or_dash date = true ->
  time <> "" -> all_in digit_or_colon time = true ->
  room <> "" -> all_in word room = true ->
  execute_function_call
    ("Schedule a meeting on " ++ date ++ " at " ++ time ++ " in Room " ++
     room ++ "." ++ rest) =
    Ok {| name := "schedule_meeting";
          arguments := dumps [("date", JStr date); ("time", JStr time);
                              ("meeting_room", JStr ("Room " ++ room))] |}.
Proof.
  intros H1 H2 H3 H4 H5 H6. unfold execute_function_call.
  change (re_match TICKET_RE _) with (@None (list string)).
  rewrite (meeting_match date time room rest H1 H2 H3 H4 H5 H6). reflexivity.
Qed.

(** X5: a query "Report office issue N for the DEPT department." where N
    is a non-empty run of at most 4300 digits and DEPT one of word and white-space
    characters resolves to [report_office_issue] with the integer N and
    the string DEPT: the greedy slot first swallows " department" too and
    gives it back, so DEPT is all that stands before the last
    " department." of the run (it may itself end in " department"). *)
Theorem issue_query_resolves (ds dept rest : string) :
  ds <> "" -> all_in digit ds = true -> String.length ds <= MAX_STR_DIGITS ->
  dept <> "" -> all_in word_or_space dept = true ->
  execute_function_call
    ("Report office issue " ++ ds ++ " for the " ++ dept ++ " department." ++ rest) =
    Ok {| name := "report_office_issue";
          arguments := dumps [("issue_code", JInt (int ds));
                              ("department", JStr dept)] |}.
Proof.
  intros H1 H2 _ H3 H4. unfold execute_function_call.
  change (re_match TICKET_RE _) with (@None (list string)).
  change (re_match MEETING_RE _) with (@None (list string)).
  change (re_match EXPENSE_RE _) with (@None (list string)).
  change (re_match BONUS_RE _) with (@None (list string)).
  rewrite (issue_match ds dept rest H1 H2 H3 H4). reflexivity.
Qed.

(** X6: numbers survive the round trip through the query text: for
    non-negative [n] and [m] of at most 4300 digits, the ticket, expense
    and bonus queries written with the decimal numerals of [n] and [m]
    resolve to arguments that encode exactly [n] and [m]. *)
Theorem numbers_round_trip (n m : Z) :
  (0 <= n)%Z -> (0 <= m)%Z ->
  String.length (decimal n) <= MAX_STR_DIGITS ->
  String.length (decimal m) <= MAX_STR_DIGITS ->
  execute_function_call ("What is the status of ticket " ++ decimal n ++ "?") =
    Ok {| name := "get_ticket_status";
          arguments := dumps [("ticket_id", JInt n)] |} /\
  execute_function_call ("Show my expense balance for employee " ++ decimal n ++ ".") =
    Ok {| name := "get_expense_balance";
          arguments := dumps [("employee_id", JInt n)] |} /\
  execute_function_call
    ("Calculate performance bonus for employee " ++ decimal n ++ " for " ++
     decimal m ++ ".") =
    Ok {| name := "calculate_performance_bonus";
          arguments := dumps [("employee_id", JInt n); ("current_year", JInt m)] |}.
Proof.
  intros Hn Hm _ _.
  destruct (decimal_digits n Hn) as (N1 & N2 & N3).
  destruct (decimal_digits m Hm) as (M1 & M2 & M3).
  repeat split; unfold execute_function_call.
  - change ("What is the status of ticket " ++ decimal n ++ "?")%string
      with ("What is the status of ticket " ++ decimal n ++ "?" ++ "")%string.
    rewrite (ticket_match _ _ N1 N2). cbn [group nth Nat.sub]. rewrite N3. reflexivity.
  - change (re_match TICKET_RE _) with (@None (list string)).
    change (re_match MEETING_RE _) with (@None (list string)).
    change ("Show my expense balance for employee " ++ decimal n ++ ".")%string
      with ("Show my expense balance for employee " ++ decimal n ++ "." ++ "")%string.
    rewrite (expense_match _ _ N1 N2). cbn [group nth Nat.sub]. rewrite N3. reflexivity.
  - change (re_match TICKET_RE _) with (@None (list string)).
    change (re_match MEETING_RE _) with (@None (list string)).
    change (re_match EXPENSE_RE _) with (@None (list string)).
    change ("Calculate performance bonus for employee " ++ decimal n ++ " for " ++
            decimal m ++ ".")%string
      with ("Calculate performance bonus for employee " ++ decimal n ++ " for " ++
            decimal m ++ "." ++ "")%string.
    rewrite (bonus_match _ _ _ N1 N2 M1 M2). cbn [group nth Nat.sub].
    rewrite N3, M3. reflexivity.
Qed.


(** ** The accepted language *)

Lemma greedy_plus_Some {R : Type} (cls : ascii -> bool) (k : string -> option R)
  (s : string) (r : R) :
  greedy_plus cls k s = Some r ->
  exists ds s', s = (ds ++ s')%string /\ ds <> "" /\ all_in cls ds = true /\
                k s' = Some r.
Proof.
  induction s as [|c s IH]; simpl; [discriminate|].
  destruct (cls c) eqn:Hc; [|discriminate].
  destruct (greedy_plus cls k s) as [r'|] eqn:E.
  - intros [= ->]. destruct (IH eq_refl) as (ds & s' & -> & _ & Hds & Hk).
    exists (String c ds), s'. repeat split; [discriminate| |exact Hk].
    simpl. rewrite Hc. exact Hds.
  - intros Hk. exists (String c ""), s. repeat split; [discriminate| |exact Hk].
    simpl. rewrite Hc. reflexivity.
Qed.

Lemma exec_lit_Some (w s : string) (p : pattern) (opens caps r : list string) :
  exec (Lit w :: p) s opens caps = Some r ->
  exists s', s = (w ++ s')%string /\ exec p s' opens caps = Some r.
Proof.
  cbn [exec]. destruct (strip_prefix w s) as [s'|] eqn:E; [|discriminate].
  intros H. exists s'. split; [apply strip_prefix_Some; exact E|exact H].
Qed.

Lemma exec_plus_Some (cls : ascii -> bool) (s : string) (p : pattern)
  (opens caps r : list string) :
  exec (Plus cls :: p) s opens caps = Some r ->
  exists ds s', s = (ds ++ s')%string /\ ds <> "" /\ all_in cls ds = true /\
                exec p s' opens caps = Some r.
Proof. cbn [exec]. apply greedy_plus_Some. Qed.

Ltac open_match H :=
  repeat first
    [ apply exec_lit_Some in H as (? & -> & H)
    | apply exec_plus_Some in H as (? & ? & -> & ? & ? & H)
    | rewrite exec_open in H
    | progress cbn [exec] in H ].

Lemma conforms_instance (q : string) : conforms q -> template_instance q.
Proof.
  intros (p & Hin & Hp). simpl in Hin.
  destruct (re_match p q) as [m|] eqn:E; [clear Hp|contradiction].
  unfold re_match in E.
  destruct Hin as [<-|[<-|[<-|[<-|[<-|[]]]]]].
  - unfold TICKET_RE in E. open_match E. constructor; assumption.
  - unfold MEETING_RE in E. open_match E.
    match goal with
    | |- template_instance (_ ++ ?d ++ _ ++ ?t ++ _ ++ _ ++ ?r ++ _ ++ ?rest) =>
        apply (meeting_instance d t r rest); assumption
    end.
  - unfold EXPENSE_RE in E. open_match E. constructor; assumption.
  - unfold BONUS_RE in E. open_match E. constructor; assumption.
  - unfold ISSUE_RE in E. open_match E. constructor; assumption.
Qed.


Lemma instance_conforms (q : string) : template_instance q -> conforms q.
Proof.
  intros H. unfold conforms, TEMPLATES.
  destruct H as [ds rest H1 H2|date time room rest H1 H2 H3 H4 H5 H6
                |ds rest H1 H2|ds ys rest H1 H2 H3 H4|ds dept rest H1 H2 H3 H4].
  - exists TICKET_RE. split; [simpl; tauto|].
    rewrite (ticket_match ds rest H1 H2). discriminate.
  - exists MEETING_RE. split; [simpl; tauto|].
    rewrite (meeting_match date time room rest H1 H2 H3 H4 H5 H6). discriminate.
  - exists EXPENSE_RE. split; [simpl; tauto|].
    rewrite (expense_match ds rest H1 H2). discriminate.
  - exists BONUS_RE. split; [simpl; tauto|].
    rewrite (bonus_match ds ys rest H1 H2 H3 H4). discriminate.
  - exists ISSUE_RE. split; [simpl; tauto|].
    rewrite (issue_match ds dept rest H1 H2 H3 H4). discriminate.
Qed.

(** A filled-in template begins with itself. *)
Lemma fills_template_instance (q : string) : fills_template q -> template_instance q.
Proof.
  intros [ds H1 H2|date time room H1 H2 H3 H4 H5 H6|ds H1 H2|ds ys H1 H2 H3 H4
         |ds dept H1 H2 H3 H4].
  - apply (ticket_instance ds ""); assumption.
  - apply (meeting_instance date time room ""); assumption.
  - apply (expense_instance ds ""); assumption.
  - apply (bonus_instance ds ys ""); assumption.
  - apply (issue_instance ds dept ""); assumption.
Qed.




(** X7: on ASCII queries of at most 4300 characters, the resolver returns
    a structured resolution exactly for the queries that begin with an
    instance of one of the five templates, and fails with the HTTP 400
    "no pattern" error exactly for all others. *)
Theorem resolver_accepts_exactly_the_templates (q : string) :
  all_in seven_bit q = true -> String.length q <= MAX_STR_DIGITS ->
  (template_instance q <-> exists r, execute_function_call q = Ok r) /\
  (~ template_instance q <-> execute_function_call q = Raise NO_PATTERN).
Proof.
  intros _ _. split; split.
  - intros H. apply FunctionCallerFacts.resolution_iff_conforms.
    apply instance_conforms. exact H.
  - intros H. apply conforms_instance.
    apply FunctionCallerFacts.resolution_iff_conforms. exact H.
  - intros H.
    assert (Hc : ~ conforms q) by (intros Hc; apply H, conforms_instance, Hc).
    unfold execute_function_call.
    rewrite !(FunctionCallerFacts.no_template_no_match q _ Hc) by (simpl; tauto).
    reflexivity.
  - intros H Hi. apply instance_conforms in Hi.
    apply FunctionCallerFacts.resolution_iff_conforms in Hi as [r Hr].
    rewrite H in Hr. discriminate Hr.
Qed.

(** ** The templates exclude one another *)

Lemma match_starts_with (w : string) (p : pattern) (q : string) :
  re_match (Lit w :: p) q <> None -> exists r, q = (w ++ r)%string.
Proof.
  unfold re_match. destruct (exec (Lit w :: p) q [] []) as [m|] eqn:E;
    [intros _|contradiction].
  apply exec_lit_Some in E as (s' & -> & _). exists s'. reflexivity.
Qed.

(** X8: no query is accepted by two different templates, so the order
    in which the handler tries them does not decide any answer. *)
Theorem templates_exclude_one_another (q : string) (p1 p2 : pattern) :
  In p1 TEMPLATES -> In p2 TEMPLATES ->
  re_match p1 q <> None -> re_match p2 q <> None -> p1 = p2.
Proof.
  intros H1 H2 M1 M2. simpl in H1, H2.
  destruct H1 as [<-|[<-|[<-|[<-|[<-|[]]]]]];
  destruct H2 as [<-|[<-|[<-|[<-|[<-|[]]]]]];
    try reflexivity; exfalso;
    apply match_starts_with in M1 as [r1 ->];
    apply match_starts_with in M2 as [r2 E];
    discriminate E.
Qed.


(** ** The alphabet of the encoded arguments *)

Lemma all_in_app (cls : ascii -> bool) (a b : string) :
  all_in cls (a ++ b) = all_in cls a && all_in cls b.
Proof.
  induction a as [|c a IH]; simpl; [reflexivity|].
  rewrite IH. apply andb_assoc.
Qed.

Lemma escape_char_printable (c : ascii) : all_in printable (escape_char c) = true.
Proof. destruct c as [[] [] [] [] [] [] [] []]; reflexivity. Qed.

Lemma escape_printable (s : string) : all_in printable (escape s) = true.
Proof.
  induction s as [|c s IH]; [reflexivity|].
  cbn [escape]. rewrite all_in_app, escape_char_printable, IH. reflexivity.
Qed.

Lemma quoted_printable (s : string) : all_in printable (quoted s) = true.
Proof.
  unfold quoted. cbn [all_in]. rewrite all_in_app, escape_printable. reflexivity.
Qed.

Lemma uint_printable (d : Decimal.uint) :
  all_in printable (NilEmpty.string_of_uint d) = true.
Proof. induction d; simpl; auto. Qed.

Lemma int_printable (n : Z) :
  all_in printable (NilZero.string_of_int (Z.to_int n)) = true.
Proof.
  unfold NilZero.string_of_int, NilZero.string_of_uint.
  destruct (Z.to_int n) as [d|d]; destruct d; try reflexivity;
    cbn [all_in]; try apply uint_printable;
    rewrite ?andb_true_l; apply (uint_printable (_ d)).
Qed.

Lemma dumps_printable (d : list (string * value)) : all_in printable (dumps d) = true.
Proof.
  unfold dumps. cbn [append all_in]. rewrite andb_true_l, all_in_app, andb_true_r.
  induction d as [|[k v] d IH]; [reflexivity|].
  assert (Hi : all_in printable (dumps_item (k, v)) = true).
  { unfold dumps_item. cbn [fst snd]. rewrite !all_in_app, quoted_printable.
    destruct v; cbn [dumps_value]; [rewrite int_printable|rewrite quoted_printable];
      reflexivity. }
  cbn [map String.concat]. destruct (map dumps_item d) eqn:E.
  - exact Hi.
  - rewrite !all_in_app, Hi, IH. reflexivity.
Qed.

(** X9: whatever the query, the [arguments] string of a resolution
    consists of printable ASCII characters only: control characters that a
    slot captured (a tab or a newline in a department name) are escaped. *)
Theorem arguments_are_printable_ascii (q : string) (r : FunctionCallResponse) :
  execute_function_call q = Ok r -> all_in printable (arguments r) = true.
Proof.
  unfold execute_function_call.
  destruct (re_match TICKET_RE q); [intros [= <-]; apply dumps_printable|].
  destruct (re_match MEETING_RE q); [intros [= <-]; apply dumps_printable|].
  destruct (re_match EXPENSE_RE q); [intros [= <-]; apply dumps_printable|].
  destruct (re_match BONUS_RE q); [intros [= <-]; apply dumps_printable|].
  destruct (re_match ISSUE_RE q); [intros [= <-]; apply dumps_printable|].
  discriminate.
Qed.


Lemma ticket_query_resolves_witness :
  execute_function_call "What is the status of ticket 007? Thanks." =
    Ok {| name := "get_ticket_status"; arguments := dumps [("ticket_id", JInt 7)] |}.
Proof.
  apply (ticket_query_resolves "007" " Thanks.");
    [discriminate | reflexivity | apply Nat.leb_le; reflexivity].
Defined.

Lemma meeting_query_resolves_witness :
  execute_function_call "Schedule a meeting on 2025-02-15 at 14:00 in Room A." =
    Ok {| name := "schedule_meeting";
          arguments := dumps [("date", JStr "2025-02-15"); ("time", JStr "14:00");
                              ("meeting_room", JStr "Room A")] |}.
Proof.
  apply (meeting_query_resolves "2025-02-15" "14:00" "A" "");
    try discriminate; reflexivity.
Defined.

Lemma expense_query_resolves_witness :
  execute_function_call "Show my expense balance for employee 10056." =
    Ok {| name := "get_expense_balance";
          arguments := dumps [("employee_id", JInt 10056)] |}.
Proof.
  apply (expense_query_resolves "10056" "");
    [discriminate | reflexivity | apply Nat.leb_le; reflexivity].
Defined.

Lemma bonus_query_resolves_witness :
  execute_function_call "Calculate performance bonus for employee 10 for 2025." =
    Ok {| name := "calculate_performance_bonus";
          arguments := dumps [("employee_id", JInt 10); ("current_year", JInt 2025)] |}.
Proof.
  apply (bonus_query_resolves "10" "2025" "");
    try discriminate; try reflexivity; apply Nat.leb_le; reflexivity.
Defined.

Lemma issue_query_resolves_witness :
  execute_function_call "Report office issue 45 for the IT department department." =
    Ok {| name := "report_office_issue";
          arguments := dumps [("issue_code", JInt 45);
                              ("department", JStr "IT department")] |}.
Proof.
  apply (issue_query_resolves "45" "IT department" "");
    try discriminate; try reflexivity; apply Nat.leb_le; reflexivity.
Defined.

Lemma numbers_round_trip_witness :
  execute_function_call "What is the status of ticket 482?" =
    Ok {| name := "get_ticket_status"; arguments := dumps [("ticket_id", JInt 482)] |}.
Proof.
  refine (proj1 (numbers_round_trip 482 2025 _ _ _ _));
    [lia | lia | apply Nat.leb_le; reflexivity | apply Nat.leb_le; reflexivity].
Defined.

Lemma resolver_accepts_exactly_the_templates_witness :
  template_instance "Show my expense balance for employee 7. Thank you" /\
  ~ template_instance "show my expense balance for employee 7.".
Proof.
  split.
  - refine (proj2 (proj1 (resolver_accepts_exactly_the_templates
                            "Show my expense balance for employee 7. Thank you" _ _)) _);
      [reflexivity | apply Nat.leb_le; reflexivity | eexists; reflexivity].
  - refine (proj2 (proj2 (resolver_accepts_exactly_the_templates
                            "show my expense balance for employee 7." _ _)) _);
      [reflexivity | apply Nat.leb_le; reflexivity | reflexivity].
Defined.

Lemma templates_exclude_one_another_witness : TICKET_RE = TICKET_RE.
Proof.
  apply (templates_exclude_one_another "What is the status of ticket 482?").
  - left. reflexivity.
  - left. reflexivity.
  - discriminate.
  - discriminate.
Defined.

Lemma arguments_are_printable_ascii_witness :
  contains (String (ascii_of_nat 9) "") tabbed_issue = true /\
  all_in printable
    (dumps [("issue_code", JInt 7);
            ("department", JStr ("IT" ++ String (ascii_of_nat 9) "Ops"))]) = true.
Proof.
  split; [reflexivity|].
  apply (arguments_are_printable_ascii tabbed_issue
           {| name := "report_office_issue";
              arguments := dumps [("issue_code", JInt 7);
                                  ("department",
                                   JStr ("IT" ++ String (ascii_of_nat 9) "Ops"))] |}).
  reflexivity.
Defined.

End TemplateFacts.

(* ================================================================== *)
(** * More on rag_api.py                                               *)
(* ================================================================== *)

Module SearchFacts.
Import RagApi SortFacts.

(** ** Rule dispatch does not look at the case of letters *)

Lemma nat_of_lower_upper (b : ascii) :
  (65 <=? nat_of_ascii b)%nat && (nat_of_ascii b <=? 90)%nat = true ->
  nat_of_ascii (lower_ascii b) = nat_of_ascii b + 32.
Proof.
  intros H. unfold lower_ascii. rewrite H.
  apply andb_prop in H as [H1 H2].
  apply Nat.leb_le in H1, H2.
  apply nat_ascii_embedding. lia.
Qed.

Lemma eqb_lower_caseless (c b : ascii) :
  caseless c = true -> Ascii.eqb c (lower_ascii b) = Ascii.eqb c b.
Proof.
  unfold caseless. intros Hc.
  destruct ((65 <=? nat_of_ascii b)%nat && (nat_of_ascii b <=? 90)%nat) eqn:Hb.
  - pose proof (nat_of_lower_upper b Hb) as Hl.
    apply andb_prop in Hb as [H1 H2]. apply Nat.leb_le in H1, H2.
    apply andb_prop in Hc as [Hu Hlow].
    destruct (Ascii.eqb_spec c (lower_ascii b)) as [->|_].
    + exfalso. rewrite Hl in Hlow.
      replace (97 <=? nat_of_ascii b + 32)%nat with true in Hlow
        by (symmetry; apply Nat.leb_le; lia).
      replace (nat_of_ascii b + 32 <=? 122)%nat with true in Hlow
        by (symmetry; apply Nat.leb_le; lia).
      discriminate Hlow.
    + destruct (Ascii.eqb_spec c b) as [->|_]; [|reflexivity].
      exfalso.
      replace (65 <=? nat_of_ascii b)%nat with true in Hu
        by (symmetry; apply Nat.leb_le; lia).
      replace (nat_of_ascii b <=? 90)%nat with true in Hu
        by (symmetry; apply Nat.leb_le; lia).
      discriminate Hu.
  - unfold lower_ascii. rewrite Hb. reflexivity.
Qed.

Lemma strip_prefix_lower (n s : string) :
  all_in caseless n = true ->
  (strip_prefix n (lower s) = None <-> strip_prefix n s = None).
Proof.
  revert s. induction n as [|a n IH]; intros s Hn; simpl.
  - split; discriminate.
  - simpl in Hn. apply andb_prop in Hn as [Ha Hn].
    destruct s as [|b s]; simpl; [tauto|].
    rewrite (eqb_lower_caseless a b Ha).
    destruct (Ascii.eqb a b); [apply IH; exact Hn|tauto].
Qed.

(** A needle without letters is found in [s.lower()] exactly when it is
    found in [s]. *)
Lemma contains_lower (n s : string) :
  all_in caseless n = true -> contains n (lower s) = contains n s.
Proof.
  intros Hn. induction s as [|b s IH].
  - reflexivity.
  - pose proof (strip_prefix_lower n (String b s) Hn) as H.
    cbn [lower] in *. cbn [contains].
    destruct (strip_prefix n (String (lower_ascii b) (lower s))) eqn:E1;
      destruct (strip_prefix n (String b s)) eqn:E2; try reflexivity.
    + destruct H as [_ H]. discriminate (H eq_refl).
    + destruct H as [H _]. discriminate (H eq_refl).
    + exact IH.
Qed.

Lemma rules_read_lower (q : string) :
  rule_arrow_name q = rule_arrow_name (lower q) /\
  rule_double_bang q = rule_double_bang (lower q) /\
  rule_arrow_any q = rule_arrow_any (lower q).
Proof.
  assert (Hl : lower (lower q) = lower q).
  { induction q as [|c q IH]; [reflexivity|]. cbn [lower]. rewrite IH. f_equal.
    unfold lower_ascii at 1.
    destruct ((65 <=? nat_of_ascii (lower_ascii c))%nat &&
              (nat_of_ascii (lower_ascii c) <=? 90)%nat) eqn:E; [|reflexivity].
    exfalso. unfold lower_ascii in E.
    destruct ((65 <=? nat_of_ascii c)%nat && (nat_of_ascii c <=? 90)%nat) eqn:Ec.
    - apply andb_prop in Ec as [H1 H2]. apply Nat.leb_le in H1, H2.
      rewrite nat_ascii_embedding in E by lia.
      apply andb_prop in E as [_ E]. apply Nat.leb_le in E. lia.
    - rewrite Ec in E. discriminate E. }
  unfold rule_arrow_name, rule_double_bang, rule_arrow_any, mentions_arrow.
  rewrite Hl, !(contains_lower "=>" q eq_refl), !(contains_lower "!!" q eq_refl).
  repeat split.
Qed.

(** X10: rule dispatch does not look at the case of letters: two queries
    that differ only in case satisfy the same first rule, and when a rule
    matches they get the same answer with no backend call. *)
Theorem rule_dispatch_ignores_case (w : World) (q1 q2 : string) :
  lower q1 = lower q2 ->
  first_match q1 = first_match q2 /\
  (first_match q1 <> None -> run (search w q1) = run (search w q2)).
Proof.
  intros Hl.
  destruct (rules_read_lower q1) as (A1 & B1 & C1).
  destruct (rules_read_lower q2) as (A2 & B2 & C2).
  rewrite Hl in A1, B1, C1. rewrite <- A2 in A1. rewrite <- B2 in B1.
  rewrite <- C2 in C1.
  unfold first_match, RULES, run, search. simpl find. rewrite A1, B1, C1.
  split; [reflexivity|].
  destruct (rule_arrow_name q2); [reflexivity|].
  destruct (rule_double_bang q2); [reflexivity|].
  destruct (rule_arrow_any q2); [reflexivity|].
  intros H. contradiction.
Qed.


(** ** What the embedding path ranks and returns *)

Lemma nth_error_precedes {A : Type} (l : list A) (i j : nat) (x y : A) :
  i < j -> nth_error l i = Some x -> nth_error l j = Some y -> precedes x y l.
Proof.
  intros Hij Hi Hj.
  apply nth_error_split in Hi as (l1 & r & -> & Hl1).
  rewrite nth_error_app2 in Hj by lia.
  replace (j - length l1) with (S (j - length l1 - 1)) in Hj by lia.
  simpl in Hj. apply nth_error_split in Hj as (l2 & l3 & -> & _).
  exists l1, l2, l3. reflexivity.
Qed.

(** The scoring loop, entry by entry: on success the [j]-th entry holds
    the [j]-th index, the score of the [j]-th vector and the [j]-th
    knowledge-base document. *)
Lemma score_loop_entries (qe : list float) (ds : list (list float)) (k : nat)
  (acc sims : list (nat * float * Document)) :
  score_loop qe (enumerate_from k ds) acc = Ok sims ->
  length sims = length acc + length ds /\
  (forall j, j < length acc -> nth_error sims j = nth_error acc j) /\
  (forall j dv, nth_error ds j = Some dv ->
     exists s doc, nth_error sims (length acc + j) = Some (k + j, s, doc) /\
                   cosine_similarity qe dv = Ok s /\
                   nth_error KNOWLEDGE_BASE (k + j) = Some doc).
Proof.
  revert k acc. induction ds as [|d ds IH]; intros k acc H.
  - cbn [enumerate_from score_loop] in H. injection H as <-.
    repeat split; [simpl; lia|].
    intros j dv Hj. destruct j; discriminate Hj.
  - cbn [enumerate_from score_loop] in H.
    destruct (cosine_similarity qe d) as [s|] eqn:Es; [|discriminate].
    unfold index in H.
    destruct (nth_error KNOWLEDGE_BASE k) as [doc|] eqn:Ek; [|discriminate].
    apply IH in H as (Hlen & Hacc & Hent).
    rewrite length_app in Hlen, Hacc, Hent. cbn [length] in *.
    repeat split.
    + lia.
    + intros j Hj. rewrite Hacc by lia. apply nth_error_app1. exact Hj.
    + intros [|j] dv Hj.
      * injection Hj as <-. exists s, doc. rewrite !Nat.add_0_r.
        rewrite Hacc by lia. rewrite nth_error_app2, Nat.sub_diag by lia.
        repeat split; assumption.
      * destruct (Hent j dv Hj) as (s' & doc' & H1 & H2 & H3).
        exists s', doc'.
        replace (length acc + S j) with (length acc + 1 + j) by lia.
        replace (k + S j) with (S k + j) by lia. repeat split; assumption.
Qed.

Lemma rank_head_is_maximal (sims rest : list (nat * float * Document))
  (best x : nat * float * Document) :
  rank sims = best :: rest -> In x sims ->
  (score_of best <? score_of x)%float = false.
Proof.
  intros Hr Hx.
  pose proof (RagFacts.fixed_rank_non_increasing sims) as Hs.
  rewrite Hr in Hs. apply StronglySorted_inv in Hs as [_ Hs].
  eapply Permutation_in in Hx; [|symmetry; apply RagFacts.rank_perm].
  rewrite Hr in Hx. destruct Hx as [<-|Hx].
  - apply FloatOrder.ltb_irrefl.
  - rewrite Forall_forall in Hs. apply Hs. exact Hx.
Qed.

Lemma rank_head_is_earliest (sims rest : list (nat * float * Document))
  (best x : nat * float * Document) :
  NoDup sims -> rank sims = best :: rest -> precedes x best sims ->
  (score_of x =? score_of best)%float = false.
Proof.
  intros Hnd Hr Hp.
  destruct (score_of x =? score_of best)%float eqn:E; [exfalso|reflexivity].
  pose proof (RagFacts.fixed_rank_keeps_ties sims x best Hp E) as Hk.
  assert (Hnd' : NoDup (rank sims)).
  { eapply Permutation_NoDup; [symmetry; apply RagFacts.rank_perm|exact Hnd]. }
  rewrite Hr in Hk, Hnd'.
  destruct Hk as (l1 & l2 & l3 & Hk). destruct l1 as [|y l1].
  - simpl in Hk. injection Hk as -> _.
    destruct Hp as (m1 & m2 & m3 & ->).
    apply NoDup_remove_2 in Hnd. apply Hnd.
    apply in_or_app. right. apply in_or_app. right. left. reflexivity.
  - simpl in Hk. injection Hk as <- ->.
    apply NoDup_cons_iff in Hnd' as [Hnd' _]. apply Hnd'.
    apply in_or_app. right. right. apply in_or_app. right. left. reflexivity.
Qed.

(** X12: when the embedding path returns a document and no score is NaN,
    the document is the knowledge-base entry at an index [i] such that no
    document vector scores strictly more against the query vector than the
    [i]-th one, and no earlier document vector scores the same: the first
    of the best-scoring documents. *)
Theorem best_document_is_first_maximum
  (qe : list float) (ds : list (list float)) (d : Document) :
  (forall v s, In v ds -> cosine_similarity qe v = Ok s -> (s =? s)%float = true) ->
  best_document (qe :: ds) = Ok d ->
  exists i v s,
    nth_error KNOWLEDGE_BASE i = Some d /\ nth_error ds i = Some v /\
    cosine_similarity qe v = Ok s /\
    (forall j v' s', nth_error ds j = Some v' ->
       cosine_similarity qe v' = Ok s' -> (s <? s')%float = false) /\
    (forall j v' s', j < i -> nth_error ds j = Some v' ->
       cosine_similarity qe v' = Ok s' -> (s' =? s)%float = false).
Proof.
  intros _. unfold best_document. cbn [index nth_error tl].
  destruct (score_loop qe (enumerate ds) []) as [sims|] eqn:Es; [|discriminate].
  unfold index.
  destruct (nth_error (rank sims) 0) as [best|] eqn:Eb; [|discriminate].
  intros [= <-].
  destruct (rank sims) as [|b rest] eqn:Er; [discriminate|].
  injection Eb as ->.
  apply score_loop_entries in Es as (Hlen & _ & Hent). cbn [length Nat.add] in *.
  assert (Hin : In best sims).
  { eapply Permutation_in; [apply RagFacts.rank_perm|]. rewrite Er. left. reflexivity. }
  apply In_nth_error in Hin as [i Hi].
  assert (Hlt : i < length ds).
  { rewrite <- Hlen. apply nth_error_Some. rewrite Hi. discriminate. }
  destruct (nth_error ds i) as [v|] eqn:Ev;
    [|apply nth_error_None in Ev; lia].
  destruct (Hent i v Ev) as (s & doc & H1 & H2 & H3).
  rewrite Hi in H1. injection H1 as ->.
  exists i, v, s. cbn [snd]. repeat split; try assumption.
  - intros j v' s' Hj Hc.
    destruct (Hent j v' Hj) as (s2 & doc2 & G1 & G2 & _).
    rewrite Hc in G2. injection G2 as <-.
    apply nth_error_In in G1.
    apply (rank_head_is_maximal sims rest (i, s, doc) (j, s', doc2) Er G1).
  - intros j v' s' Hji Hj Hc.
    destruct (Hent j v' Hj) as (s2 & doc2 & G1 & G2 & _).
    rewrite Hc in G2. injection G2 as <-.
    apply (rank_head_is_earliest sims rest (i, s, doc) (j, s', doc2)); [|exact Er|].
    + apply (NoDup_map_inv (fun x => fst (fst x))).
      apply NoDup_nth_error. intros a b Ha Hab.
      rewrite length_map in Ha.
      rewrite !nth_error_map in Hab.
      assert (Hb : b < length ds).
      { destruct (Nat.lt_ge_cases b (length ds)) as [|Hge]; [assumption|].
        rewrite <- Hlen in Hge. apply nth_error_None in Hge.
        rewrite Hge in Hab. apply nth_error_Some in Ha.
        destruct (nth_error sims a); [discriminate|contradiction]. }
      rewrite Hlen in Ha.
      destruct (nth_error ds a) as [va|] eqn:Eva;
        [|apply nth_error_None in Eva; lia].
      destruct (nth_error ds b) as [vb|] eqn:Evb;
        [|apply nth_error_None in Evb; lia].
      destruct (Hent a va Eva) as (? & ? & Ga & _).
      destruct (Hent b vb Evb) as (? & ? & Gb & _).
      rewrite Ga, Gb in Hab. cbn in Hab. injection Hab as ->. reflexivity.
    + eapply nth_error_precedes; eassumption.
Qed.


(** ** When the embedding path answers at all *)

Lemma cosine_Ok_length (v1 v2 : list float) (s : float) :
  cosine_similarity v1 v2 = Ok s -> length v2 = length v1.
Proof.
  unfold cosine_similarity, np_dot.
  destruct (length v1 =? length v2)%nat eqn:E; [|discriminate].
  intros _. apply Nat.eqb_eq in E. symmetry. exact E.
Qed.

Lemma best_document_shape (embeddings : list (list float)) (d : Document) :
  best_document embeddings = Ok d ->
  exists qe ds, embeddings = qe :: ds /\ ds <> [] /\
                length ds <= length KNOWLEDGE_BASE /\
                Forall (fun v => length v = length qe) ds.
Proof.
  unfold best_document. destruct embeddings as [|qe ds]; [discriminate|].
  cbn [index nth_error tl].
  destruct (score_loop qe (enumerate ds) []) as [sims|] eqn:Es; [|discriminate].
  destruct (index (rank sims) 0) as [best|] eqn:Eb; [|discriminate].
  intros _. exists qe, ds.
  apply score_loop_entries in Es as (Hlen & _ & Hent). cbn [length Nat.add] in *.
  repeat split.
  - intros ->. apply RagFacts.index_In in Eb.
    eapply Permutation_in in Eb; [|apply RagFacts.rank_perm].
    destruct sims; [destruct Eb|discriminate Hlen].
  - destruct (Nat.le_gt_cases (length ds) (length KNOWLEDGE_BASE)) as [|Hgt];
      [assumption|exfalso].
    destruct (nth_error ds (length KNOWLEDGE_BASE)) as [v|] eqn:Ev;
      [|apply nth_error_None in Ev; lia].
    destruct (Hent _ v Ev) as (s & doc & _ & _ & Hk).
    assert (Hn : nth_error KNOWLEDGE_BASE (length KNOWLEDGE_BASE) = None)
      by (apply nth_error_None; apply Nat.le_refl).
    rewrite Hn in Hk. discriminate Hk.
  - apply Forall_forall. intros v Hv. apply In_nth_error in Hv as [j Hj].
    destruct (Hent j v Hj) as (s & doc & _ & Hc & _).
    apply cosine_Ok_length in Hc. exact Hc.
Qed.

(** X13: with a real credential and no rule matching, [search] answers
    exactly when the remote service returns a query vector followed by one
    to five document vectors, all of the length of the query vector; a
    failed request, no vector, a lone query vector, more than five document
    vectors or a vector of another length make it raise. *)
Theorem search_answers_iff_vectors_fit (w : World) (q : string) :
  first_match q = None ->
  use_mock (getenv w "dummy-api-key") = false ->
  ((exists resp, fst (run (search w q)) = Ok resp) <->
   (exists qe ds,
      remote_embed w (getenv w "dummy-api-key") (q :: map content KNOWLEDGE_BASE)
        = Ok (qe :: ds) /\
      ds <> [] /\ length ds <= 5 /\ Forall (fun v => length v = length qe) ds)).
Proof.
  intros Hm Hk. apply RagFacts.first_match_none in Hm as (H1 & H2 & H3).
  unfold run, search. rewrite H1, H2, H3.
  unfold embedding_search, get_embeddings, bind, invoke, lift, ret.
  rewrite Hk. cbv beta iota zeta.
  destruct (remote_embed w _ _) as [embeddings|e] eqn:Er.
  - split.
    + intros [resp Hr].
      destruct (best_document embeddings) as [d|] eqn:Eb; [|discriminate Hr].
      apply best_document_shape in Eb as (qe & ds & -> & Hne & Hlen & Hdim).
      exists qe, ds. repeat split; assumption.
    + intros (qe & ds & [= ->] & Hne & Hlen & Hdim).
      destruct (RagFacts.best_document_total qe ds Hne Hlen Hdim) as [d ->].
      eexists. reflexivity.
  - split.
    + intros [resp Hr]. discriminate Hr.
    + intros (qe & ds & Hr & _). discriminate Hr.
Qed.


Lemma rule_dispatch_ignores_case_witness :
  run (search Demo.offline "WHAT IS A FAT ARROW CALLED?") =
  run (search Demo.offline "what is a fat arrow called?").
Proof.
  apply (rule_dispatch_ignores_case Demo.offline
           "WHAT IS A FAT ARROW CALLED?" "what is a fat arrow called?").
  - reflexivity.
  - discriminate.
Defined.

Lemma best_document_is_first_maximum_witness :
  exists i v s,
    nth_error KNOWLEDGE_BASE i = Some (kb 1) /\
    nth_error [[0; 1]; [1; 0]; [1; 0]]%float i = Some v /\
    cosine_similarity [1; 0]%float v = Ok s /\
    (forall j v' s', nth_error [[0; 1]; [1; 0]; [1; 0]]%float j = Some v' ->
       cosine_similarity [1; 0]%float v' = Ok s' -> (s <? s')%float = false) /\
    (forall j v' s', j < i -> nth_error [[0; 1]; [1; 0]; [1; 0]]%float j = Some v' ->
       cosine_similarity [1; 0]%float v' = Ok s' -> (s' =? s)%float = false).
Proof.
  apply (best_document_is_first_maximum
           [1; 0]%float [[0; 1]; [1; 0]; [1; 0]]%float (kb 1)).
  - intros v s [<-|[<-|[<-|[]]]] H; vm_compute in H; injection H as <-; reflexivity.
  - reflexivity.
Defined.

Lemma search_answers_iff_vectors_fit_witness :
  exists resp, fst (run (search Demo.online "What is an interface?")) = Ok resp.
Proof.
  apply (search_answers_iff_vectors_fit Demo.online "What is an interface?").
  - reflexivity.
  - reflexivity.
  - eexists _, _. split; [reflexivity|]. split; [discriminate|].
    split; [simpl; lia|]. repeat constructor.
Defined.

End SearchFacts.

(* ================================================================== *)
(** * More on similarity_api.py                                        *)
(* ================================================================== *)

Module HandlerFacts.
Import SimilarityApi SortFacts RankingFacts SimilarityFacts.

(** ** Failures of the handler *)

Lemma key_missing_is_reported : on_exception KEY_MISSING = raise KEY_MISSING.
Proof. reflexivity. Qed.

(** X14: with documents and a query but no credential (the variable
    unset or empty), the remote service is never called and the handler
    fails with the HTTP 401 "key is missing" error: the 401 that
    [get_embedding] raises is caught by the handler's own [except], its
    text ("status: detail") names OPENAI_API_KEY, and it is raised anew. *)
Theorem missing_key_is_unauthorized (w : World) (request : SimilarityRequest) :
  docs request <> [] -> query request <> "" ->
  getenv_api_key w = None \/ getenv_api_key w = Some "" ->
  run (get_similarity w request) = (Raise KEY_MISSING, []).
Proof.
  intros Hd Hq Hk. unfold run, get_similarity.
  destruct (docs request) as [|d ds] eqn:Ed; [contradiction|].
  destruct (query request) as [|c s] eqn:Eq; [contradiction|].
  cbn [is_empty_list is_empty_str orb].
  unfold try_except, rank_documents. rewrite Ed. cbn [for_each].
  unfold bind at 1. unfold bind at 1.
  assert (Hg : get_embedding w d [] = (Raise KEY_MISSING, [])).
  { unfold get_embedding. destruct Hk as [-> | ->]; reflexivity. }
  rewrite Hg. reflexivity.
Qed.


Lemma on_exception_cases (e : exn) (tr : list call) :
  on_exception e tr = (Raise KEY_MISSING, tr) \/
  on_exception e tr = (Raise (HTTPException 500 (str_exn e)), tr).
Proof. unfold on_exception. destruct (contains _ _); [left|right]; reflexivity. Qed.


(** ** The trace of a request, whatever the world does *)

Lemma firstn_one_call_app (k : nat) (texts more : list string) :
  k <= length texts ->
  firstn k (one_call_per_text (texts ++ more)) = firstn k (one_call_per_text texts).
Proof.
  intros H. unfold one_call_per_text. rewrite map_app, firstn_app.
  rewrite length_map. replace (k - length texts) with 0 by lia.
  rewrite firstn_0, app_nil_r. reflexivity.
Qed.

Lemma get_embedding_trace (w : World) (t : string) (tr : list call) :
  (exists k, k <= 1 /\
     snd (get_embedding w t tr) = tr ++ firstn k (one_call_per_text [t])).
Proof.
  unfold get_embedding. destruct (getenv_api_key w) as [key|].
  - destruct (String.eqb key "").
    + exists 0. split; [lia|]. cbn. rewrite app_nil_r. reflexivity.
    + exists 1. split; [lia|]. unfold bind, invoke, lift. fold (sent_text t).
      destruct (remote_embed w key [sent_text t]) as [data|e]; reflexivity.
  - exists 0. split; [lia|]. cbn. rewrite app_nil_r. reflexivity.
Qed.

Lemma get_embedding_Ok_trace (w : World) (t : string) (tr tr' : list call)
  (v : list float) :
  get_embedding w t tr = (Ok v, tr') -> tr' = tr ++ one_call_per_text [t].
Proof.
  unfold get_embedding. destruct (getenv_api_key w) as [key|]; [|discriminate].
  destruct (String.eqb key ""); [discriminate|].
  unfold bind, invoke, lift. fold (sent_text t).
  destruct (remote_embed w key [sent_text t]) as [data|e]; [|discriminate].
  intros [= _ <-]. reflexivity.
Qed.

Lemma for_each_embedding_trace (w : World) (texts : list string)
  (tr tr' : list call) (r : result (list (list float))) :
  for_each (get_embedding w) texts tr = (r, tr') ->
  exists k, k <= length texts /\
    tr' = tr ++ firstn k (one_call_per_text texts) /\
    (forall vs, r = Ok vs -> k = length texts).
Proof.
  revert tr tr' r. induction texts as [|t rest IH]; intros tr tr' r.
  - cbn. intros [= <- <-]. exists 0. cbn. rewrite app_nil_r. auto.
  - cbn [for_each]. unfold bind at 1.
    destruct (get_embedding w t tr) as [[v|e] tr1] eqn:Eg.
    + apply get_embedding_Ok_trace in Eg as ->.
      unfold bind at 1.
      destruct (for_each (get_embedding w) rest (tr ++ one_call_per_text [t]))
        as [[vs|e] tr2] eqn:Ef;
        destruct (IH _ _ _ Ef) as (k & Hk & Ht & Hf);
        intros [= <- <-]; exists (S k);
        (split; [simpl; lia|]);
        (split; [rewrite Ht, <- app_assoc; reflexivity|]).
      * intros _ _. rewrite (Hf vs eq_refl). reflexivity.
      * intros vs Hvs. discriminate Hvs.
    + intros [= <- <-].
      destruct (get_embedding_trace w t tr) as (k & Hk & Ht).
      rewrite Eg in Ht. cbn [snd] in *. exists k. split; [simpl; lia|].
      split; [|intros vs Hvs; discriminate Hvs].
      rewrite Ht. f_equal. destruct k as [|[|k]]; [reflexivity|reflexivity|lia].
Qed.

Lemma for_each_index_trace (docs : list string) (l : list nat) (tr : list call) :
  snd (for_each (fun i => lift (index docs i)) l tr) = tr.
Proof.
  induction l as [|i l IH]; [reflexivity|].
  cbn [for_each]. unfold bind at 1, lift at 1.
  destruct (index docs i); [|reflexivity].
  unfold bind at 1.
  destruct (for_each _ l tr) as [[ys|e] t']; exact IH.
Qed.

Lemma firstn_calls_extend (texts : list string) (q : string) (k : nat) :
  one_call_per_text texts ++ firstn k (one_call_per_text [q]) =
    firstn (length texts + k) (one_call_per_text (texts ++ [q])).
Proof.
  unfold one_call_per_text. rewrite map_app, firstn_app, length_map.
  replace (length texts + k - length texts) with k by lia.
  rewrite (firstn_all2 (n := length texts + k)) by (rewrite length_map; lia).
  reflexivity.
Qed.

(** X16: whatever the environment, the remote service and scikit-learn
    do, the remote calls of one request are an initial part of: one call
    per document, in order, then one call for the query, each call with a
    single text in which newlines are replaced by spaces. *)
Theorem trace_is_one_text_at_a_time (w : World) (request : SimilarityRequest) :
  exists k,
    snd (run (get_similarity w request)) =
      firstn k (one_call_per_text (docs request ++ [query request])).
Proof.
  unfold run, get_similarity.
  destruct (is_empty_list (docs request) || is_empty_str (query request)).
  { exists 0. reflexivity. }
  unfold try_except.
  assert (H : exists k, snd (rank_documents w request []) =
             firstn k (one_call_per_text (docs request ++ [query request]))).
  { unfold rank_documents. unfold bind at 1.
    destruct (for_each (get_embedding w) (docs request) [])
      as [[vs|e] tr] eqn:Ef;
      destruct (for_each_embedding_trace w _ _ _ _ Ef) as (k & Hk & Ht & Hf);
      cbn [fst snd app] in *.
    - specialize (Hf vs eq_refl). subst k.
      rewrite firstn_all2 in Ht
        by (unfold one_call_per_text; rewrite length_map; lia).
      subst tr.
      destruct (get_embedding_trace w (query request)
                  (one_call_per_text (docs request))) as (k & Hk' & Hq).
      rewrite firstn_calls_extend in Hq.
      exists (length (docs request) + k).
      unfold bind at 1.
      destruct (get_embedding w (query request) _) as [[qv|e] tr] eqn:Eq;
        cbn [snd] in Hq; [|exact Hq].
      unfold bind at 1, lift at 1.
      destruct (sk_cosine_similarity w _ _) as [K|]; [|exact Hq].
      unfold bind at 1, lift at 1.
      destruct (index K 0) as [sims|]; [|exact Hq].
      unfold bind at 1.
      pose proof (for_each_index_trace (docs request) (top_3_indices sims) tr) as Hi.
      destruct (for_each _ (top_3_indices sims) tr) as [[ys|e] t'];
        cbn [snd] in *; subst t'; exact Hq.
    - exists k. subst tr. symmetry. apply firstn_one_call_app. exact Hk. }
  destruct H as [k Hk]. exists k.
  destruct (rank_documents w request []) as [[r|e] t]; cbn [snd] in *;
    [exact Hk|].
  destruct (on_exception_cases e t) as [-> | ->]; exact Hk.
Qed.


(** ** A provider failure stops the request where it happens *)

Lemma for_each_stops {A B : Type} (f : A -> M B) (pre post : list A) (d : A)
  (tr tr1 tr2 : list call) (vs : list B) (e : exn) :
  for_each f pre tr = (Ok vs, tr1) -> f d tr1 = (Raise e, tr2) ->
  for_each f (pre ++ d :: post) tr = (Raise e, tr2).
Proof.
  revert tr vs. induction pre as [|x pre IH]; intros tr vs Hpre Hd.
  - cbn in Hpre. injection Hpre as <- <-.
    cbn [app for_each]. unfold bind at 1. rewrite Hd. reflexivity.
  - cbn [app for_each] in *. unfold bind at 1 in Hpre. unfold bind at 1.
    destruct (f x tr) as [[y|e'] tr'] eqn:Ex; [|discriminate Hpre].
    unfold bind at 1 in Hpre. unfold bind at 1.
    destruct (for_each f pre tr') as [[ys|e'] tr''] eqn:Ep; [|discriminate Hpre].
    injection Hpre as <- <-.
    rewrite (IH tr' ys Ep Hd). reflexivity.
Qed.

(** X17: when the remote service answers for the first documents and
    fails on the next one, the request stops there: the documents after it
    and the query are never sent, and the failure surfaces as HTTP 500
    with the provider's message (as HTTP 401 if that message mentions
    OPENAI_API_KEY); no partial ranking is returned. *)
Theorem provider_failure_stops_the_request
  (w : World) (key : string) (request : SimilarityRequest)
  (pre post : list string) (d : string) (e : exn) :
  docs request = pre ++ d :: post -> query request <> "" ->
  getenv_api_key w = Some key -> key <> "" ->
  provider_answers w key pre ->
  remote_embed w key [sent_text d] = Raise e ->
  run (get_similarity w request) =
    (Raise (if contains "OPENAI_API_KEY" (str_exn e) then KEY_MISSING
            else HTTPException 500 (str_exn e)),
     one_call_per_text (pre ++ [d])).
Proof.
  intros Hd Hq Hk Hne Hp He. unfold run, get_similarity.
  rewrite Hd.
  replace (is_empty_list (pre ++ d :: post)) with false by (destruct pre; reflexivity).
  destruct (query request) as [|c s] eqn:Eq; [contradiction|].
  cbn [is_empty_str orb]. unfold try_except, rank_documents. rewrite Hd.
  unfold bind at 1.
  assert (Hg : get_embedding w d ([] ++ one_call_per_text pre) =
               (Raise e, one_call_per_text (pre ++ [d]))).
  { unfold get_embedding. rewrite Hk.
    apply String.eqb_neq in Hne. rewrite Hne.
    unfold bind, invoke, lift. fold (sent_text d). rewrite He.
    cbn [app]. unfold one_call_per_text. rewrite map_app. reflexivity. }
  rewrite (for_each_stops (get_embedding w) pre post d [] _ _ _ e
             (for_each_get_embedding w key Hk Hne pre [] Hp) Hg).
  unfold on_exception. destruct (contains _ _); reflexivity.
Qed.

(** ** What the ranking step keeps and what it leaves out *)

Lemma StronglySorted_app_inv {A : Type} (R : A -> A -> Prop) (l1 l2 : list A)
  (a b : A) :
  StronglySorted R (l1 ++ l2) -> In a l1 -> In b l2 -> R a b.
Proof.
  induction l1 as [|x l1 IH]; intros H Ha Hb; [destruct Ha|].
  simpl in H. apply StronglySorted_inv in H as [H Hx].
  destruct Ha as [->|Ha]; [|apply IH; assumption].
  rewrite Forall_forall in Hx. apply Hx. apply in_or_app. right. exact Hb.
Qed.

(** X18: the ranking step leaves out no document that scores strictly
    more than one it returns. *)
Theorem top_3_are_the_top (row : list float) (i j : nat) :
  In i (top_3_indices row) -> j < length row -> ~ In j (top_3_indices row) ->
  (nth i row nan <? nth j row nan)%float = false.
Proof.
  unfold top_3_indices, take_top_3, last_n. intros Hi Hj Hnj.
  apply in_rev in Hi. rewrite <- in_rev in Hnj.
  pose proof (argsort_ascending row nan) as Hs. unfold ascending in Hs.
  rewrite <- (firstn_skipn (length (argsort row) - 3) (argsort row)) in Hs.
  apply (StronglySorted_app_inv _ _ _ j i Hs); [|exact Hi].
  assert (Hin : In j (argsort row)).
  { eapply Permutation_in; [symmetry; apply argsort_perm|].
    apply in_seq. lia. }
  rewrite <- (firstn_skipn (length (argsort row) - 3) (argsort row)) in Hin.
  apply in_app_or in Hin as [Hin|Hin]; [exact Hin|contradiction].
Qed.

Lemma map_nth_seq (l : list string) :
  map (fun i => nth i l "") (seq 0 (length l)) = l.
Proof.
  induction l as [|a l IH]; [reflexivity|].
  cbn [length seq map nth]. f_equal.
  rewrite <- seq_shift, map_map. exact IH.
Qed.

(** X19: with at most three documents, a request that the remote
    service and scikit-learn answer returns all the documents: the matches
    are a rearrangement of the request's list. *)
Theorem small_corpus_is_returned_whole
  (w : World) (key : string) (request : SimilarityRequest)
  (row : list float) (rest : list (list float)) :
  docs request <> [] -> query request <> "" ->
  getenv_api_key w = Some key -> key <> "" ->
  provider_answers w key (docs request ++ [query request]) ->
  sk_cosine_similarity w [embedding_of w key (query request)]
    (map (embedding_of w key) (docs request)) = Ok (row :: rest) ->
  length row = length (docs request) ->
  length (docs request) <= 3 ->
  exists resp, fst (run (get_similarity w request)) = Ok resp /\
               Permutation (matches resp) (docs request).
Proof.
  intros Hd Hq Hk Hne Hp Hsk Hlen H3.
  pose proof (rank_documents_result w key request row rest Hk Hne Hp Hsk Hlen) as Hr.
  exists {| matches := map (fun i => nth i (docs request) "") (top_3_indices row) |}.
  split.
  - unfold run, get_similarity in *.
    destruct (docs request) as [|d ds] eqn:Ed; [contradiction|].
    destruct (query request) as [|c s] eqn:Eq; [contradiction|].
    cbn [is_empty_list is_empty_str orb]. unfold try_except.
    destruct (rank_documents w request []) as [[r|e] t]; [exact Hr|discriminate Hr].
  - cbn [matches].
    apply Permutation_trans
      with (map (fun i => nth i (docs request) "") (seq 0 (length (docs request))));
      [|rewrite map_nth_seq; reflexivity].
    apply Permutation_map. rewrite <- Hlen.
    unfold top_3_indices, take_top_3, last_n.
    replace (length (argsort row) - 3) with 0
      by (rewrite length_argsort; lia).
    cbn [skipn]. rewrite <- Permutation_rev. apply argsort_perm.
Qed.


(** ** What a response can hold, whatever the world does *)

Lemma index_bound {A : Type} (l : list A) (i : nat) (a : A) :
  index l i = Ok a -> i < length l.
Proof.
  unfold index. destruct (nth_error l i) eqn:E; [|discriminate].
  intros _. apply nth_error_Some. rewrite E. discriminate.
Qed.

Lemma for_each_index_Ok (docs : list string) (l : list nat) (tr : list call)
  (ys : list string) :
  fst (for_each (fun i => lift (index docs i)) l tr) = Ok ys ->
  length ys = length l /\ Forall (fun y => In y docs) ys /\
  Forall (fun i => i < length docs) l.
Proof.
  revert ys. induction l as [|i l IH]; intros ys.
  - cbn. intros [= <-]. repeat split; constructor.
  - cbn [for_each]. unfold bind at 1, lift at 1.
    destruct (index docs i) as [y|] eqn:Ei; [|discriminate].
    unfold bind at 1.
    destruct (for_each _ l tr) as [[ys'|e] t'] eqn:Ef; [|discriminate].
    cbn [fst] in *. intros [= <-]. destruct (IH ys' eq_refl) as (Hl & Hf & Hb).
    repeat split.
    + simpl. rewrite Hl. reflexivity.
    + constructor; [|exact Hf]. apply (RagFacts.index_In _ _ _ Ei).
    + constructor; [|exact Hb]. apply (index_bound _ _ _ Ei).
Qed.

(** X20: whatever the remote service and scikit-learn return, a response
    of the handler holds at most three matches, no more than there are
    documents, and every match is one of the request's documents. *)
Theorem response_holds_at_most_three_documents
  (w : World) (request : SimilarityRequest) (resp : SimilarityResponse) :
  fst (run (get_similarity w request)) = Ok resp ->
  length (matches resp) <= 3 /\
  length (matches resp) <= length (docs request) /\
  Forall (fun m => In m (docs request)) (matches resp).
Proof.
  unfold run, get_similarity.
  destruct (is_empty_list (docs request) || is_empty_str (query request));
    [discriminate|].
  unfold try_except.
  destruct (rank_documents w request []) as [[r|e] t] eqn:Er;
    [|destruct (on_exception_cases e t) as [-> | ->]; discriminate].
  cbn [fst]. intros [= ->].
  unfold rank_documents in Er. unfold bind at 1 in Er.
  destruct (for_each (get_embedding w) (docs request) []) as [[vs|e] t1];
    [|discriminate Er].
  unfold bind at 1 in Er.
  destruct (get_embedding w (query request) t1) as [[qv|e] t2]; [|discriminate Er].
  unfold bind at 1, lift at 1 in Er.
  destruct (sk_cosine_similarity w [qv] vs) as [K|]; [|discriminate Er].
  unfold bind at 1, lift at 1 in Er.
  destruct (index K 0) as [sims|]; [|discriminate Er].
  unfold bind at 1 in Er.
  destruct (for_each _ (top_3_indices sims) t2) as [[ys|e] t3] eqn:Ef;
    [|discriminate Er].
  injection Er as <- _. cbn [matches].
  destruct (for_each_index_Ok (docs request) (top_3_indices sims) t2 ys)
    as (Hl & Hf & Hb); [rewrite Ef; reflexivity|].
  repeat split; [rewrite Hl, length_top_3; lia| |exact Hf].
  rewrite Hl.
  pose proof (NoDup_incl_length (top_3_NoDup sims)
                (l' := seq 0 (length (docs request)))) as Hc.
  rewrite length_seq in Hc. apply Hc.
  intros i Hi. apply in_seq. rewrite Forall_forall in Hb.
  specialize (Hb i Hi). lia.
Qed.


Lemma missing_key_is_unauthorized_witness :
  run (get_similarity Demo.offline Demo.five_docs) = (Raise KEY_MISSING, []).
Proof.
  apply (missing_key_is_unauthorized Demo.offline Demo.five_docs).
  - discriminate.
  - discriminate.
  - left. reflexivity.
Defined.

Lemma flaky_answers_ab : provider_answers flaky "sk-demo" ["ab"].
Proof. intros t [<-|[]]. eexists _, _. reflexivity. Qed.

Lemma provider_failure_stops_the_request_witness :
  run (get_similarity flaky flaky_request) =
    (Raise (HTTPException 500 "rate limit reached"),
     [{| via := Remote; batch := ["ab"] |}; {| via := Remote; batch := ["boom"] |}]).
Proof.
  apply (provider_failure_stops_the_request flaky "sk-demo" flaky_request
           ["ab"] ["cd"] "boom" (ProviderError "rate limit reached")).
  - reflexivity.
  - discriminate.
  - reflexivity.
  - discriminate.
  - exact flaky_answers_ab.
  - reflexivity.
Defined.

Lemma top_3_are_the_top_witness :
  (nth 2 [0.125; 0.75; 0.5; 0.625]%float nan <? nth 0 [0.125; 0.75; 0.5; 0.625]%float nan)%float
    = false.
Proof.
  apply (top_3_are_the_top [0.125; 0.75; 0.5; 0.625]%float 2 0).
  - right. right. left. reflexivity.
  - simpl. lia.
  - intros [H|[H|[H|[]]]]; discriminate H.
Defined.

Lemma small_corpus_is_returned_whole_witness :
  exists resp, fst (run (get_similarity Demo.online Demo.two_alike)) = Ok resp /\
               Permutation (matches resp) ["ab"; "cd"].
Proof.
  refine (small_corpus_is_returned_whole Demo.online "sk-demo" Demo.two_alike
            (Demo.demo_cosine_row
               (embedding_of Demo.online "sk-demo" "xy")
               (map (embedding_of Demo.online "sk-demo") (docs Demo.two_alike)))
            [] _ _ _ _ _ _ _ _).
  - discriminate.
  - discriminate.
  - reflexivity.
  - discriminate.
  - apply Deployments.online_provider_answers.
  - reflexivity.
  - reflexivity.
  - simpl. lia.
Defined.

Lemma response_holds_at_most_three_documents_witness :
  length ["ij"; "cd"; "ab"] <= 3 /\
  length ["ij"; "cd"; "ab"] <= length (docs Demo.five_docs) /\
  Forall (fun m => In m (docs Demo.five_docs)) ["ij"; "cd"; "ab"].
Proof.
  apply (response_holds_at_most_three_documents Demo.online Demo.five_docs
           {| matches := ["ij"; "cd"; "ab"] |}).
  reflexivity.
Defined.

End HandlerFacts.
